(** * BusTub buffer pool: clock replacer and buffer pool manager

    A shallow embedding of [src/buffer/clock_replacer.cpp] and
    [src/buffer/buffer_pool_manager.cpp], and the properties of the
    specification settled against it.

    Conventions.
    - [frame_id_t] and [page_id_t] are signed 32-bit integers in the source;
      they are modelled as [Z].  The arithmetic the code performs on them
      ([clock_pointer++], [victimized_size--], [pin_count_--]) stays inside
      the 32-bit range whenever the replacer is well formed (see
      [ClockReplacer.wf]), so no wrap-around occurs there; the one cast the
      code writes out, [static_cast<int>(pins_states.size())], is modelled
      with its wrap-around ([to_int]).
    - [std::vector<bool>] is a [list bool]; [v[i]] outside the bounds of the
      vector is undefined behaviour, modelled by the outcome [Undef].
    - the [while (true)] loop of [Victim] is given a budget of iterations;
      running out of budget is the outcome [OutOfFuel]. *)

From Stdlib Require Import ZArith Lia.
From Stdlib.Strings Require Import Byte.
From stdpp Require Import base list gmap.

Local Open Scope Z_scope.

(** ** Outcomes of a call *)

Inductive outcome (A : Type) : Type :=
| Done (a : A)
| Undef
| OutOfFuel.
Arguments Done {A} a.
Arguments Undef {A}.
Arguments OutOfFuel {A}.

#[global] Instance outcome_ret : MRet outcome := fun A a => Done a.

#[global] Instance outcome_bind : MBind outcome := fun A B k m =>
  match m with
  | Done a => k a
  | Undef => Undef
  | OutOfFuel => OutOfFuel
  end.

(** [v[i]] for a signed index: defined only inside the bounds. *)
Definition vec_at {A} (v : list A) (i : Z) : outcome A :=
  if decide (0 <= i) then
    match v !! Z.to_nat i with
    | Some x => Done x
    | None => Undef
    end
  else Undef.

(** [v[i] = x], used after [v[i]] was found inside the bounds. *)
Definition vec_set {A} (v : list A) (i : Z) (x : A) : list A :=
  <[Z.to_nat i := x]> v.

(** [static_cast<int>(n)] for an unsigned [n]. *)
Definition to_int (n : Z) : Z := (n + 2 ^ 31) mod 2 ^ 32 - 2 ^ 31.

Definition int_size {A} (v : list A) : Z := to_int (Z.of_nat (length v)).

(** ** The clock replacer ([clock_replacer.cpp]) *)

Module ClockReplacer.

Record t : Type := mk {
  pins_states : list bool;      (* true: pinned, false: evictable *)
  access_states : list bool;    (* the reference bits *)
  clock_pointer : Z;            (* the hand *)
  victimized_size : Z           (* the counter behind Size() *)
}.

(** Modelled from the spec: the header that declares [clock_pointer] and
    [victimized_size] with their initial values is not part of the
    sources at hand; the hand starts at frame 0 and no frame is a
    candidate at construction, so both start at 0. *)
Definition new (num_pages : nat) : t :=
  mk (replicate num_pages true) (replicate num_pages false) 0 0.

(** One iteration of the [while (true)] loop of [Victim]. *)
Inductive step_result : Type :=
| Selected (frame_id : Z) (r : t)
| Continue (r : t).

Definition normalize (r : t) : Z :=
  if decide (clock_pointer r >= int_size (pins_states r)) then 0
  else clock_pointer r.

Definition victim_step (r : t) : outcome step_result :=
  let cp := normalize r in
  pinned ← vec_at (pins_states r) cp ;
  if negb pinned then
    ref ← vec_at (access_states r) cp ;
    if negb ref then
      Done (Selected cp
              (mk (vec_set (pins_states r) cp true) (access_states r)
                  (cp + 1) (victimized_size r - 1)))
    else
      Done (Continue
              (mk (pins_states r) (vec_set (access_states r) cp false)
                  (cp + 1) (victimized_size r)))
  else
    Done (Continue
            (mk (pins_states r) (access_states r) (cp + 1)
                (victimized_size r))).

Fixpoint victim_loop (fuel : nat) (r : t) : outcome (Z * t) :=
  match fuel with
  | O => OutOfFuel
  | S fuel' =>
      s ← victim_step r ;
      match s with
      | Selected f r' => Done (f, r')
      | Continue r' => victim_loop fuel' r'
      end
  end.

(** [Victim]: [None] stands for the return value [false]. *)
Definition Victim (fuel : nat) (r : t) : outcome (option Z * t) :=
  if decide (victimized_size r = 0) then Done (None, r)
  else '(f, r') ← victim_loop fuel r ; Done (Some f, r').

Definition Pin (frame_id : Z) (r : t) : outcome t :=
  if decide (frame_id < int_size (pins_states r)) then
    pinned ← vec_at (pins_states r) frame_id ;
    if negb pinned then
      Done (mk (vec_set (pins_states r) frame_id true) (access_states r)
               (clock_pointer r) (victimized_size r - 1))
    else Done r
  else Done r.

Definition Unpin (frame_id : Z) (r : t) : outcome t :=
  if decide (frame_id < int_size (pins_states r)) then
    pinned ← vec_at (pins_states r) frame_id ;
    let r1 : t :=
      if (pinned : bool) then
        mk (vec_set (pins_states r) frame_id false) (access_states r)
           (clock_pointer r) (victimized_size r + 1)
      else r in
    _ ← vec_at (access_states r1) frame_id ;
    Done (mk (pins_states r1) (vec_set (access_states r1) frame_id true)
             (clock_pointer r1) (victimized_size r1))
  else Done r.

(** [Size] returns the counter converted to [size_t] (64 bits). *)
Definition Size (r : t) : Z := victimized_size r mod 2 ^ 64.

(** The frames the replacer holds as candidates. *)
Definition evictable (r : t) (i : nat) : Prop :=
  pins_states r !! i = Some false.

Definition capacity (r : t) : nat := length (pins_states r).

Definition count_evictable (r : t) : nat :=
  length (filter (fun b => b = false) (pins_states r)).

(** Well-formed replacer states: what the constructor establishes and
    [Victim], [Pin] and [Unpin] keep for indices that are not negative. *)
Record wf (r : t) : Prop := {
  wf_len : length (access_states r) = length (pins_states r);
  wf_cap : Z.of_nat (length (pins_states r)) < 2 ^ 31;
  wf_hand : 0 <= clock_pointer r;
  wf_size : victimized_size r = Z.of_nat (count_evictable r)
}.

(** A replacer of capacity 3: frame 0 pinned, frames 1 and 2 evictable,
    the reference bit of frame 1 set, the hand on frame 1. *)
Definition example : t := mk [true; false; false] [false; true; false] 1 2.

(** *** The sweep of [Victim], as the specification describes it

    [sweep_pos n h j] is the frame under the hand at iteration [j]
    (counted from 0) of a sweep that starts at frame [h] and wraps at
    capacity [n]. *)
Definition sweep_pos (n h j : nat) : nat := (h + j) mod n.

(** The hand at the start of the sweep, after the wrap of the first
    iteration. *)
Definition start_pos (r : t) : nat := Z.to_nat (normalize r).

(** Iteration [j] of the sweep over [r] does not select: the frame under
    the hand is not evictable, or it is visited for the first time and
    its reference bit is set. *)
Definition passed_over (r : t) (j : nat) : Prop :=
  let i := sweep_pos (capacity r) (start_pos r) j in
  pins_states r !! i = Some true ∨
  (j < capacity r)%nat ∧ access_states r !! i = Some true.

(** [Victim] on [r] selects at iteration [k], returns [v] and leaves the
    replacer in [r']. *)
Record victim_post (r : t) (k : nat) (v : Z) (r' : t) : Prop := {
  vp_bound : (k < 2 * capacity r)%nat;
  vp_frame : v = Z.of_nat (sweep_pos (capacity r) (start_pos r) k);
  vp_evictable : evictable r (sweep_pos (capacity r) (start_pos r) k);
  vp_ref :
    access_states r !! sweep_pos (capacity r) (start_pos r) k = Some false
    ∨ (capacity r ≤ k)%nat;
  vp_first : ∀ j, (j < k)%nat → passed_over r j;
  vp_pins :
    pins_states r' =
    <[sweep_pos (capacity r) (start_pos r) k := true]> (pins_states r);
  vp_hand : clock_pointer r' = v + 1;
  vp_size : victimized_size r' = victimized_size r - 1;
  vp_len : length (access_states r') = length (access_states r);
  vp_ref_after :
    access_states r' !! sweep_pos (capacity r) (start_pos r) k
    = Some false;
  vp_cleared : ∀ j, (j < k)%nat →
    evictable r (sweep_pos (capacity r) (start_pos r) j) →
    access_states r' !! sweep_pos (capacity r) (start_pos r) j
    = Some false;
  vp_kept : ∀ i,
    (pins_states r !! i = Some true
     ∨ ∀ j, (j < k)%nat → sweep_pos (capacity r) (start_pos r) j ≠ i) →
    access_states r' !! i = access_states r !! i
}.

(** The state [r] of the loop after [j] iterations of the sweep over
    [r0] that did not select. *)
Record sweep_inv (r0 : t) (j : nat) (r : t) : Prop := {
  si_pins : pins_states r = pins_states r0;
  si_size : victimized_size r = victimized_size r0;
  si_hand :
    normalize r = Z.of_nat (sweep_pos (capacity r0) (start_pos r0) j);
  si_len : length (access_states r) = length (access_states r0);
  si_passed : ∀ j', (j' < j)%nat → passed_over r0 j';
  si_cleared : ∀ j', (j' < j)%nat →
    evictable r0 (sweep_pos (capacity r0) (start_pos r0) j') →
    access_states r !! sweep_pos (capacity r0) (start_pos r0) j'
    = Some false;
  si_kept : ∀ i,
    (pins_states r0 !! i = Some true
     ∨ ∀ j', (j' < j)%nat →
         sweep_pos (capacity r0) (start_pos r0) j' ≠ i) →
    access_states r !! i = access_states r0 !! i
}.

End ClockReplacer.

(** ** Pages *)

Record Page : Type := mkPage {
  data_ : list byte;        (* the payload, PAGE_SIZE bytes *)
  page_id_ : Z;
  pin_count_ : Z;
  is_dirty_ : bool
}.

Definition INVALID_PAGE_ID : Z := -1.

(** Modelled from the spec: [Page::ResetMemory] is declared in a header
    that is not part of the sources at hand; "reset frame memory" zeroes
    the payload and leaves the metadata of the frame as it is. *)
Definition ResetMemory (pg : Page) : Page :=
  mkPage (map (fun _ => x00) (data_ pg)) (page_id_ pg) (pin_count_ pg)
         (is_dirty_ pg).

(** ** The disk manager, an external collaborator *)

Module DiskManager.

Inductive call : Type :=
| CReadPage (page_id : Z)
| CWritePage (page_id : Z) (payload : list byte)
| CAllocatePage (page_id : Z)
| CDeallocatePage (page_id : Z).

(** Modelled from the spec: the disk manager is specified by its contract
    only (ReadPage, WritePage, AllocatePage, DeallocatePage); the model
    keeps the stored payloads, the next fresh identifier and the calls
    received, oldest first. *)
Record t : Type := mk {
  contents : gmap Z (list byte);
  next_page_id : Z;
  calls : list call
}.

Definition ReadPage (page_id : Z) (buf : list byte) (d : t)
  : list byte * t :=
  (match contents d !! page_id with
   | Some payload => payload
   | None => map (fun _ => x00) buf
   end,
   mk (contents d) (next_page_id d) (calls d ++ [CReadPage page_id])).

Definition WritePage (page_id : Z) (payload : list byte) (d : t) : t :=
  mk (<[page_id := payload]> (contents d)) (next_page_id d)
     (calls d ++ [CWritePage page_id payload]).

Definition AllocatePage (d : t) : Z * t :=
  (next_page_id d,
   mk (contents d) (next_page_id d + 1)
      (calls d ++ [CAllocatePage (next_page_id d)])).

Definition DeallocatePage (page_id : Z) (d : t) : t :=
  mk (contents d) (next_page_id d) (calls d ++ [CDeallocatePage page_id]).

Definition empty : t := mk ∅ 0 [].

Definition is_write_of (page_id : Z) (c : call) : bool :=
  match c with
  | CWritePage p _ => bool_decide (p = page_id)
  | _ => false
  end.

(** How many times [WritePage page_id _] occurs in a sequence of calls. *)
Definition count_writes (page_id : Z) (cs : list call) : nat :=
  length (filter (fun c => is_write_of page_id c = true) cs).

End DiskManager.

(** ** The buffer pool manager ([buffer_pool_manager.cpp]) *)

Module BufferPoolManager.

Record t : Type := mk {
  pages_ : list Page;
  page_table_ : gmap Z Z;
  free_list_ : list Z;
  replacer_ : ClockReplacer.t;
  disk_manager_ : DiskManager.t
}.

Definition set_pages (ps : list Page) (bp : t) : t :=
  mk ps (page_table_ bp) (free_list_ bp) (replacer_ bp) (disk_manager_ bp).
Definition set_page_table (pt : gmap Z Z) (bp : t) : t :=
  mk (pages_ bp) pt (free_list_ bp) (replacer_ bp) (disk_manager_ bp).
Definition set_free_list (fl : list Z) (bp : t) : t :=
  mk (pages_ bp) (page_table_ bp) fl (replacer_ bp) (disk_manager_ bp).
Definition set_replacer (r : ClockReplacer.t) (bp : t) : t :=
  mk (pages_ bp) (page_table_ bp) (free_list_ bp) r (disk_manager_ bp).
Definition set_disk_manager (d : DiskManager.t) (bp : t) : t :=
  mk (pages_ bp) (page_table_ bp) (free_list_ bp) (replacer_ bp) d.

(** The constructor; [page_size] stands for the constant PAGE_SIZE.
    Modelled from the spec: the constructor of [Page] is declared in a
    header that is not part of the sources at hand; a frame is born
    unoccupied, with pin count 0, clean, its payload zeroed. *)
Definition new (pool_size page_size : nat) (disk : DiskManager.t) : t :=
  mk (replicate pool_size
        (mkPage (replicate page_size x00) INVALID_PAGE_ID 0 false))
     ∅
     ((fun i => to_int (Z.of_nat i)) <$> seq 0 pool_size)
     (ClockReplacer.new pool_size)
     disk.

(** [std::unordered_map::insert]: an existing key keeps its value. *)
Definition table_insert (k v : Z) (pt : gmap Z Z) : gmap Z Z :=
  match pt !! k with
  | Some _ => pt
  | None => <[k := v]> pt
  end.

(** [*page = pg] for the frame a handle points at. *)
Definition store_page (frame_id : Z) (pg : Page) (bp : t) : t :=
  set_pages (vec_set (pages_ bp) frame_id pg) bp.

(** Modelled from the spec: [getFrameId] is defined in a header that is
    not part of the sources at hand; it is the page-table lookup
    ("if page_id is in the page table at frame f"). *)
Definition getFrameId (page_id : Z) (bp : t) : option Z :=
  page_table_ bp !! page_id.

(** Modelled from the spec: [getPageByFrameId] is defined in a header
    that is not part of the sources at hand; it is the handle onto
    [Frame[f]], an element of the frame array. *)
Definition getPageByFrameId (frame_id : Z) (bp : t) : outcome Page :=
  vec_at (pages_ bp) frame_id.

(** Modelled from the spec: [isAllPined] is defined in a header that is
    not part of the sources at hand; "every frame is pinned (no candidate
    from free list or replacer)". *)
Definition isAllPined (bp : t) : bool :=
  bool_decide (free_list_ bp = [] ∧ ClockReplacer.Size (replacer_ bp) = 0).

(** Modelled from the spec: [pickVictimPage] is defined in a header that
    is not part of the sources at hand.  "Obtain a free frame - always
    prefer the free list over the replacer - else ask the replacer for a
    victim.  If neither yields a frame, return none [-1 in the callers].
    If the chosen frame was a victim that is dirty, write its payload
    back via the disk manager before reuse; then remove its old entry
    from the page table." *)
Definition pickVictimPage (fuel : nat) (bp : t) : outcome (Z * t) :=
  match free_list_ bp with
  | f :: rest => mret (f, set_free_list rest bp)
  | [] =>
      '(v, r) ← ClockReplacer.Victim fuel (replacer_ bp);
      let bp := set_replacer r bp in
      match v with
      | None => mret (-1, bp)
      | Some f =>
          page ← getPageByFrameId f bp;
          let bp :=
            if is_dirty_ page then
              set_disk_manager
                (DiskManager.WritePage (page_id_ page) (data_ page)
                   (disk_manager_ bp)) bp
            else bp in
          mret (f, set_page_table
                     (delete (page_id_ page) (page_table_ bp)) bp)
      end
  end.

(** [FetchPageImpl]: the handle returned is the index of the frame;
    [None] stands for [nullptr]. *)
Definition FetchPageImpl (fuel : nat) (page_id : Z) (bp : t)
  : outcome (option Z * t) :=
  match getFrameId page_id bp with
  | Some f =>
      r ← ClockReplacer.Pin f (replacer_ bp);
      _ ← getPageByFrameId f bp;
      mret (Some f, set_replacer r bp)
  | None =>
      '(frame_id, bp) ← pickVictimPage fuel bp;
      if decide (frame_id = -1) then mret (None, bp)
      else
        page ← getPageByFrameId frame_id bp;
        let bp :=
          set_page_table (table_insert page_id frame_id (page_table_ bp))
            bp in
        let page := ResetMemory page in
        r ← ClockReplacer.Pin frame_id (replacer_ bp);
        let bp := set_replacer r bp in
        let '(buf, d) :=
          DiskManager.ReadPage page_id (data_ page) (disk_manager_ bp) in
        mret (Some frame_id,
              set_disk_manager d
                (store_page frame_id (mkPage buf page_id 1 false) bp))
  end.

Definition UnpinPageImpl (page_id : Z) (is_dirty : bool) (bp : t)
  : outcome (bool * t) :=
  match getFrameId page_id bp with
  | None => mret (false, bp)
  | Some f =>
      page ← getPageByFrameId f bp;
      if decide (pin_count_ page <= 0) then mret (false, bp)
      else
        let page :=
          mkPage (data_ page) (page_id_ page) (pin_count_ page - 1)
                 (is_dirty_ page || is_dirty) in
        let bp := store_page f page bp in
        r ← ClockReplacer.Unpin f (replacer_ bp);
        mret (true, set_replacer r bp)
  end.

Definition FlushPageImpl (page_id : Z) (bp : t) : outcome (bool * t) :=
  match getFrameId page_id bp with
  | None => mret (false, bp)
  | Some f =>
      page ← getPageByFrameId f bp;
      if negb (is_dirty_ page) then mret (false, bp)
      else
        let d :=
          DiskManager.WritePage page_id (data_ page) (disk_manager_ bp) in
        let page :=
          mkPage (data_ page) (page_id_ page) (pin_count_ page) false in
        mret (false, set_disk_manager d (store_page f page bp))
  end.

(** [NewPageImpl]: on success the result holds the handle and the
    identifier written through the output parameter. *)
Definition NewPageImpl (fuel : nat) (bp : t)
  : outcome (option (Z * Z) * t) :=
  if isAllPined bp then mret (None, bp)
  else
    '(frame_id, bp) ← pickVictimPage fuel bp;
    if decide (frame_id < 0) then mret (None, bp)
    else
      victim_page ← getPageByFrameId frame_id bp;
      let '(new_page_id, d) :=
        DiskManager.AllocatePage (disk_manager_ bp) in
      let bp := set_disk_manager d bp in
      let victim_page :=
        mkPage (data_ (ResetMemory victim_page)) new_page_id 1 false in
      let bp := store_page frame_id victim_page bp in
      let bp :=
        set_page_table
          (table_insert new_page_id frame_id (page_table_ bp)) bp in
      mret (Some (frame_id, page_id_ victim_page), bp).

Definition DeletePageImpl (page_id : Z) (bp : t) : outcome (bool * t) :=
  match getFrameId page_id bp with
  | None => mret (true, bp)
  | Some f =>
      page ← getPageByFrameId f bp;
      if decide (pin_count_ page ≠ 0) then mret (false, bp)
      else
        let bp :=
          set_page_table (delete (page_id_ page) (page_table_ bp)) bp in
        let bp := store_page f (ResetMemory page) bp in
        let bp := set_free_list (free_list_ bp ++ [f]) bp in
        mret (false, bp)
  end.

(** The body of the loop of [FlushAllPagesImpl], over the entries of the
    page table in the order the iteration visits them. *)
Fixpoint flush_each (entries : list (Z * Z)) (bp : t) : outcome t :=
  match entries with
  | [] => mret bp
  | (page_id, _) :: rest =>
      '(_, bp) ← FlushPageImpl page_id bp;
      flush_each rest bp
  end.

(** [std::unordered_map] leaves the order of the iteration open: the
    order is a parameter, a permutation of the entries of the table. *)
Definition iteration_order (order : list (Z * Z)) (bp : t) : Prop :=
  order ≡ₚ map_to_list (page_table_ bp).

Definition FlushAllPagesImpl_in (order : list (Z * Z)) (bp : t)
  : outcome t :=
  flush_each order bp.

Definition FlushAllPagesImpl (bp : t) : outcome t :=
  FlushAllPagesImpl_in (map_to_list (page_table_ bp)) bp.

(** *** Vocabulary of the specification *)

Definition resident (bp : t) (page_id frame_id : Z) : Prop :=
  page_table_ bp !! page_id = Some frame_id.

Definition holds_page (bp : t) (frame_id : Z) : Prop :=
  ∃ page_id, resident bp page_id frame_id.

(** Invariant 3 of the data model: a frame is a candidate of the replacer
    iff its pin count is zero and it holds a page. *)
Definition replacer_tracks (bp : t) : Prop :=
  ∀ (f : nat) (pg : Page),
    pages_ bp !! f = Some pg →
    ClockReplacer.evictable (replacer_ bp) f ↔
    pin_count_ pg = 0 ∧ holds_page bp (Z.of_nat f).

(** The page table is one-to-one and maps into the frame array. *)
Record table_ok (bp : t) : Prop := {
  table_inj : ∀ p1 p2 f,
    resident bp p1 f → resident bp p2 f → p1 = p2;
  table_range : ∀ p f,
    resident bp p f → 0 <= f < Z.of_nat (length (pages_ bp))
}.

(** Whether [page_id] is resident in a frame whose dirty flag is set. *)
Definition page_dirty (bp : t) (page_id : Z) : bool :=
  match getFrameId page_id bp with
  | Some f =>
      match getPageByFrameId f bp with
      | Done pg => is_dirty_ pg
      | _ => false
      end
  | None => false
  end.

(** *** Pools used as concrete inputs

    A disk that stores two bytes for page 5, a pool of three frames on
    it, and the pools the code reaches from there: after [Fetch(5)];
    after [Fetch(5); Unpin(5, true)]; after [Fetch(5); Unpin(5, false)];
    and a pool of one frame after [Fetch(5); Unpin(5, true)]. *)
Definition disk5 : DiskManager.t :=
  DiskManager.mk {[5 := [x01; x02]]} 6 [].

Definition disk5_read : DiskManager.t :=
  DiskManager.mk {[5 := [x01; x02]]} 6 [DiskManager.CReadPage 5].

Definition blank : Page := mkPage [x00; x00] INVALID_PAGE_ID 0 false.

Definition pool_fetched : t :=
  mk [mkPage [x01; x02] 5 1 false; blank; blank] {[5 := 0]} [1; 2]
     (ClockReplacer.mk [true; true; true] [false; false; false] 0 0)
     disk5_read.

Definition pool_dirty : t :=
  mk [mkPage [x01; x02] 5 0 true; blank; blank] {[5 := 0]} [1; 2]
     (ClockReplacer.mk [false; true; true] [true; false; false] 0 1)
     disk5_read.

Definition pool_clean : t :=
  mk [mkPage [x01; x02] 5 0 false; blank; blank] {[5 := 0]} [1; 2]
     (ClockReplacer.mk [false; true; true] [true; false; false] 0 1)
     disk5_read.

Definition pool_one_dirty : t :=
  mk [mkPage [x01; x02] 5 0 true] {[5 := 0]} []
     (ClockReplacer.mk [false] [true] 0 1)
     disk5_read.

End BufferPoolManager.

(** ** Sequences of calls

    A client drives the replacer through [Pin], [Unpin] and [Victim]; the
    pool does so with the indices of its frames. *)

Module ReplacerRun.
Import ClockReplacer.

Inductive op : Type :=
| OpPin (frame_id : Z)
| OpUnpin (frame_id : Z)
| OpVictim.

(** The index of a call is not negative. *)
Definition op_index_ok (o : op) : Prop :=
  match o with
  | OpPin f | OpUnpin f => 0 <= f
  | OpVictim => True
  end.

Definition run_op (fuel : nat) (o : op) (r : t) : outcome t :=
  match o with
  | OpPin f => Pin f r
  | OpUnpin f => Unpin f r
  | OpVictim => '(_, r') ← Victim fuel r; mret r'
  end.

Fixpoint run_ops (fuel : nat) (ops : list op) (r : t) : outcome t :=
  match ops with
  | [] => mret r
  | o :: ops' => r' ← run_op fuel o r; run_ops fuel ops' r'
  end.

(** [Victim] called again and again, at most [m] times, until it returns
    none: the victims in the order they were returned. *)
Fixpoint drain (fuel : nat) (m : nat) (r : t) : outcome (list Z * t) :=
  match m with
  | O => mret ([], r)
  | S m' =>
      '(o, r1) ← Victim fuel r;
      match o with
      | None => mret ([], r1)
      | Some v => '(vs, r2) ← drain fuel m' r1; mret (v :: vs, r2)
      end
  end.

End ReplacerRun.

(** No frame of the pool has a negative pin count. *)
Definition pins_nonneg (bp : BufferPoolManager.t) : Prop :=
  ∀ pg, pg ∈ BufferPoolManager.pages_ bp → 0 <= pin_count_ pg.

(** * Properties *)

(** ** Vectors and casts *)

Lemma to_int_small (n : Z) : 0 <= n < 2 ^ 31 → to_int n = n.
Proof.
  intros Hn. unfold to_int.
  rewrite Z.mod_small; lia.
Qed.

Lemma vec_at_nat {A} (v : list A) (i : nat) :
  vec_at v (Z.of_nat i) =
  match v !! i with Some x => Done x | None => Undef end.
Proof.
  unfold vec_at. rewrite decide_True by lia. by rewrite Nat2Z.id.
Qed.

Lemma vec_at_Done {A} (v : list A) (i : Z) (x : A) :
  vec_at v i = Done x ↔ 0 <= i ∧ v !! Z.to_nat i = Some x.
Proof.
  unfold vec_at. case_decide.
  - destruct (v !! Z.to_nat i); split.
    + by intros [= ->].
    + by intros [_ [= ->]].
    + done.
    + by intros [_ ?].
  - split; [done | lia].
Qed.

Lemma vec_at_lookup {A} (v : list A) (i : Z) (x : A) :
  0 <= i → v !! Z.to_nat i = Some x → vec_at v i = Done x.
Proof. intros Hi Hx. unfold vec_at. by rewrite decide_True, Hx by done. Qed.

Lemma vec_at_negative {A} (v : list A) (i : Z) : i < 0 → vec_at v i = Undef.
Proof. intros Hi. unfold vec_at. by rewrite decide_False by lia. Qed.

(** ** Arithmetic of the sweep *)

Module SweepArith.
Import ClockReplacer.

Lemma sweep_pos_lt n h j : (0 < n)%nat → (sweep_pos n h j < n)%nat.
Proof. intros Hn. apply Nat.mod_upper_bound. lia. Qed.

Lemma sweep_pos_0 n h : (h < n)%nat → sweep_pos n h 0 = h.
Proof.
  intros Hh. unfold sweep_pos. rewrite Nat.add_0_r.
  by apply Nat.mod_small.
Qed.

Lemma sweep_pos_period n h j : sweep_pos n h (j + n) = sweep_pos n h j.
Proof.
  unfold sweep_pos.
  replace (h + (j + n))%nat with (h + j + 1 * n)%nat by lia.
  apply Nat.Div0.mod_add.
Qed.

Lemma sweep_pos_wrap n h j :
  (sweep_pos n h j + 1 = n)%nat → sweep_pos n h (j + 1) = 0%nat.
Proof.
  unfold sweep_pos. intros Heq.
  rewrite Nat.add_assoc, <- Nat.Div0.add_mod_idemp_l, Heq.
  apply Nat.Div0.mod_same.
Qed.

Lemma sweep_pos_next n h j :
  (sweep_pos n h j + 1 < n)%nat →
  sweep_pos n h (j + 1) = (sweep_pos n h j + 1)%nat.
Proof.
  unfold sweep_pos. intros Hlt.
  rewrite Nat.add_assoc, <- Nat.Div0.add_mod_idemp_l.
  by apply Nat.mod_small.
Qed.

(** Two iterations that see the same frame are a revolution apart. *)
Lemma sweep_pos_same n h j j' :
  (0 < n)%nat → (j' < j)%nat →
  sweep_pos n h j' = sweep_pos n h j → (j' + n ≤ j)%nat.
Proof.
  unfold sweep_pos. intros Hn Hlt Heq.
  pose proof (Nat.div_mod_eq (h + j') n) as E1.
  pose proof (Nat.div_mod_eq (h + j) n) as E2.
  rewrite Heq in E1.
  assert (((h + j') / n < (h + j) / n)%nat) by nia.
  nia.
Qed.

Lemma sweep_pos_inj n h j j' :
  (0 < n)%nat → (j' < j)%nat → (j < n)%nat →
  sweep_pos n h j' ≠ sweep_pos n h j.
Proof.
  intros Hn Hlt Hj Heq.
  pose proof (sweep_pos_same n h j j' Hn Hlt Heq). lia.
Qed.

(** Every frame comes under the hand during the first revolution. *)
Lemma sweep_pos_reaches n h e :
  (h < n)%nat → (e < n)%nat → ∃ j, (j < n)%nat ∧ sweep_pos n h j = e.
Proof.
  intros Hh He. destruct (decide (h ≤ e)%nat) as [Hle|Hgt].
  - exists (e - h)%nat. split; [lia|]. unfold sweep_pos.
    replace (h + (e - h))%nat with e by lia. by apply Nat.mod_small.
  - exists (e + n - h)%nat. split; [lia|]. unfold sweep_pos.
    replace (h + (e + n - h))%nat with (e + 1 * n)%nat by lia.
    rewrite Nat.Div0.mod_add. by apply Nat.mod_small.
Qed.

End SweepArith.

(** ** The clock replacer *)

Module ClockReplacerFacts.
Import ClockReplacer SweepArith.

Lemma int_size_wf r :
  wf r → int_size (pins_states r) = Z.of_nat (capacity r).
Proof.
  intros [_ Hcap _ _]. unfold int_size, capacity.
  apply to_int_small. lia.
Qed.

Lemma normalize_range r :
  wf r → (0 < capacity r)%nat → 0 <= normalize r < Z.of_nat (capacity r).
Proof.
  intros Hwf Hn. pose proof (wf_hand r Hwf).
  unfold normalize. rewrite (int_size_wf r Hwf).
  case_decide; lia.
Qed.

Lemma start_pos_lt r :
  wf r → (0 < capacity r)%nat → (start_pos r < capacity r)%nat.
Proof.
  intros Hwf Hn. pose proof (normalize_range r Hwf Hn).
  unfold start_pos. lia.
Qed.

Lemma evictable_lt r i : evictable r i → (i < capacity r)%nat.
Proof. unfold evictable, capacity. apply lookup_lt_Some. Qed.

Section Sweep.
Variable r0 : t.
Hypothesis Hwf : wf r0.
Hypothesis Hpos : (0 < capacity r0)%nat.

Local Abbreviation n := (capacity r0).
Local Abbreviation pos := (sweep_pos (capacity r0) (start_pos r0)).

Lemma sweep_inv_start : sweep_inv r0 0 r0.
Proof.
  split; try done; try (intros; lia).
  rewrite sweep_pos_0 by (by apply start_pos_lt).
  pose proof (normalize_range r0 Hwf Hpos).
  unfold start_pos. lia.
Qed.

(** The hand after an iteration that does not select. *)
Lemma normalize_advance j r ps acs vs :
  sweep_inv r0 j r →
  length ps = length (pins_states r0) →
  normalize (mk ps acs (normalize r + 1) vs) = Z.of_nat (pos (j + 1)).
Proof.
  intros Hinv Hlen. unfold normalize at 1. simpl.
  unfold int_size. rewrite Hlen, to_int_small
    by (pose proof (wf_cap r0 Hwf); lia).
  rewrite (si_hand _ _ _ Hinv).
  pose proof (sweep_pos_lt n (start_pos r0) j Hpos) as Hlt.
  case_decide as Hc.
  - rewrite sweep_pos_wrap; [done|]. unfold capacity in *. lia.
  - rewrite sweep_pos_next; unfold capacity in *; lia.
Qed.

(** An evictable frame is selected at its second visit at the latest. *)
Lemma sweep_inv_bound j r :
  (∃ e, evictable r0 e) → sweep_inv r0 j r → (j < 2 * n)%nat.
Proof.
  intros [e He] Hinv.
  destruct (decide (j < 2 * n)%nat) as [|Hge]; [done|exfalso].
  destruct (sweep_pos_reaches n (start_pos r0) e) as (je & Hje & Hpe);
    [by apply start_pos_lt | by apply evictable_lt |].
  assert (Hlt : (je + n < j)%nat) by lia.
  destruct (si_passed _ _ _ Hinv (je + n)%nat Hlt) as [Hp|[Hp _]].
  - rewrite sweep_pos_period in Hp. rewrite Hpe in Hp.
    unfold evictable in He. congruence.
  - lia.
Qed.

Lemma sweep_terminates d :
  ∀ j r,
    (∃ e, evictable r0 e) →
    (j + d = 2 * n)%nat →
    sweep_inv r0 j r →
    ∃ k v r',
      (j ≤ k)%nat ∧ victim_post r0 k v r' ∧
      ∀ fuel, (k - j < fuel)%nat → victim_loop fuel r = Done (v, r').
Proof.
  induction d as [|d IH]; intros j r Hev Hd Hinv.
  { pose proof (sweep_inv_bound j r Hev Hinv). lia. }
  pose proof (sweep_pos_lt n (start_pos r0) j Hpos) as Hi.
  pose proof (si_hand _ _ _ Hinv) as Hhand.
  pose proof (si_pins _ _ _ Hinv) as Hpins.
  pose proof (si_len _ _ _ Hinv) as Hlen.
  pose proof (wf_len r0 Hwf) as Hlen0.
  destruct (lookup_lt_is_Some_2 (pins_states r0) (pos j)) as [b Hb];
    [done|].
  destruct (lookup_lt_is_Some_2 (access_states r) (pos j)) as [a Ha];
    [unfold capacity in *; lia|].
  assert (Hstep : victim_step r =
    if negb b then
      if negb a then
        Done (Selected (Z.of_nat (pos j))
                (mk (vec_set (pins_states r) (Z.of_nat (pos j)) true)
                    (access_states r) (Z.of_nat (pos j) + 1)
                    (victimized_size r - 1)))
      else
        Done (Continue
                (mk (pins_states r)
                    (vec_set (access_states r) (Z.of_nat (pos j)) false)
                    (normalize r + 1) (victimized_size r)))
    else
      Done (Continue
              (mk (pins_states r) (access_states r) (normalize r + 1)
                  (victimized_size r)))).
  { unfold victim_step. rewrite Hhand, !vec_at_nat, Hpins, Hb. simpl.
    destruct b; simpl; [done|]. rewrite Ha. simpl. by destruct a. }
  destruct b; simpl in Hstep.
  - (* the frame is pinned: skip *)
    destruct (IH (j + 1)%nat
                (mk (pins_states r) (access_states r) (normalize r + 1)
                    (victimized_size r)))
      as (k & v & r' & Hk & Hpost & Hrun); [done | lia | |].
    { split; simpl; try (by destruct Hinv).
      - apply normalize_advance; [done | by rewrite Hpins].
      - intros j' Hj'. destruct (decide (j' = j)) as [->|].
        + by left.
        + apply (si_passed _ _ _ Hinv). lia.
      - intros j' Hj' He. destruct (decide (j' = j)) as [->|].
        + unfold evictable in He. congruence.
        + apply (si_cleared _ _ _ Hinv); [lia | done].
      - intros i [Hp|Hns]; apply (si_kept _ _ _ Hinv); [by left|].
        right. intros j' Hj'. apply Hns. lia. }
    exists k, v, r'. split; [lia|]. split; [done|].
    intros [|fuel] Hf; [lia|]. simpl. rewrite Hstep. simpl.
    apply Hrun. lia.
  - destruct a; simpl in Hstep.
    + (* evictable, reference bit set: clear it and advance *)
      assert (Hjn : (j < n)%nat).
      { destruct (decide (j < n)%nat) as [|Hge]; [done|exfalso].
        assert (Hc : access_states r !! pos (j - n) = Some false).
        { apply (si_cleared _ _ _ Hinv); [lia|]. unfold evictable.
          rewrite <- (sweep_pos_period _ _ (j - n)).
          replace (j - n + capacity r0)%nat with j by lia.
          done. }
        rewrite <- (sweep_pos_period _ _ (j - n)) in Hc.
        replace (j - n + capacity r0)%nat with j in Hc
          by lia.
        congruence. }
      assert (Ha0 : access_states r0 !! pos j = Some true).
      { rewrite <- (si_kept _ _ _ Hinv); [done|]. right.
        intros j' Hj'. by apply sweep_pos_inj. }
      destruct (IH (j + 1)%nat
                  (mk (pins_states r)
                      (vec_set (access_states r) (Z.of_nat (pos j)) false)
                      (normalize r + 1) (victimized_size r)))
        as (k & v & r' & Hk & Hpost & Hrun); [done | lia | |].
      { unfold vec_set. rewrite Nat2Z.id.
        split; simpl; try (by destruct Hinv).
        - apply normalize_advance; [done | by rewrite Hpins].
        - by rewrite length_insert.
        - intros j' Hj'. destruct (decide (j' = j)) as [->|].
          + right. by split.
          + apply (si_passed _ _ _ Hinv). lia.
        - intros j' Hj' He.
          destruct (decide (pos j' = pos j)) as [->|Hne].
          + apply list_lookup_insert_eq. unfold capacity in *. lia.
          + rewrite list_lookup_insert_ne by done.
            apply (si_cleared _ _ _ Hinv); [|done].
            destruct (decide (j' = j)) as [->|]; [done|lia].
        - intros i Hi'.
          assert (pos j ≠ i).
          { destruct Hi' as [Hp|Hns]; [congruence|]. apply Hns. lia. }
          rewrite list_lookup_insert_ne by done.
          apply (si_kept _ _ _ Hinv).
          destruct Hi' as [Hp|Hns]; [by left|].
          right. intros j' Hj'. apply Hns. lia. }
      exists k, v, r'. split; [lia|]. split; [done|].
      intros [|fuel] Hf; [lia|]. simpl. rewrite Hstep. simpl.
      apply Hrun. lia.
    + (* evictable, reference bit clear: select *)
      exists j, (Z.of_nat (pos j)), 
        (mk (vec_set (pins_states r) (Z.of_nat (pos j)) true)
            (access_states r) (Z.of_nat (pos j) + 1)
            (victimized_size r - 1)).
      split; [done|]. split.
      * unfold vec_set. rewrite Nat2Z.id.
        split; simpl; try (by destruct Hinv).
        -- lia.
        -- destruct (decide (n ≤ j)%nat) as [|Hlt]; [by right|left].
           rewrite <- (si_kept _ _ _ Hinv); [done|]. right.
           intros j' Hj'. apply sweep_pos_inj; [done | done | lia].
        -- by rewrite Hpins.
        -- by destruct Hinv as [_ -> _ _ _ _ _].
      * intros [|fuel] Hf; [lia|]. simpl. by rewrite Hstep.
Qed.

End Sweep.

(** *** Counting the candidates *)

Lemma count_set_true (l : list bool) (i : nat) :
  l !! i = Some false →
  (length (filter (λ b, b = false) (<[i:=true]> l)) + 1)%nat
  = length (filter (λ b, b = false) l).
Proof.
  revert i. induction l as [|b l IH]; intros [|i] Hi; simplify_eq/=.
  - rewrite filter_cons_False by done. lia.
  - destruct b.
    + rewrite !filter_cons_False by done. by apply IH.
    + rewrite !filter_cons_True by done. simpl. rewrite <- (IH i Hi). lia.
Qed.

Lemma count_set_false (l : list bool) (i : nat) :
  l !! i = Some true →
  length (filter (λ b, b = false) (<[i:=false]> l))
  = (length (filter (λ b, b = false) l) + 1)%nat.
Proof.
  revert i. induction l as [|b l IH]; intros [|i] Hi; simplify_eq/=.
  - rewrite filter_cons_False by done. lia.
  - destruct b.
    + rewrite !filter_cons_False by done. by apply IH.
    + rewrite !filter_cons_True by done. simpl. rewrite (IH i Hi). lia.
Qed.

Lemma count_evictable_pos r :
  (0 < count_evictable r)%nat ↔ ∃ i, evictable r i.
Proof.
  unfold count_evictable, evictable. split.
  - intros Hc. destruct (filter _ _) as [|b l] eqn:Hf; [simpl in Hc; lia|].
    assert (Hin : b ∈ filter (λ b, b = false) (pins_states r))
      by (rewrite Hf; left).
    apply list_elem_of_filter in Hin as [-> Hin].
    by apply list_elem_of_lookup in Hin.
  - intros [i Hi].
    assert (Hin : false ∈ filter (λ b, b = false) (pins_states r)).
    { apply list_elem_of_filter. split; [done|].
      apply list_elem_of_lookup. eauto. }
    destruct (filter _ _); [by apply not_elem_of_nil in Hin | simpl; lia].
Qed.

Lemma count_evictable_le r : (count_evictable r ≤ capacity r)%nat.
Proof. apply length_filter. Qed.

Lemma new_wf (num_pages : nat) :
  Z.of_nat num_pages < 2 ^ 31 → wf (new num_pages).
Proof.
  intros Hn. split; simpl.
  - by rewrite !length_replicate.
  - by rewrite length_replicate.
  - done.
  - unfold count_evictable. simpl.
    induction num_pages as [|k IH]; [done|]. simpl.
    rewrite filter_cons_False by done. apply IH. lia.
Qed.

(** *** Fuel *)

Lemma victim_loop_more fuel r res :
  victim_loop fuel r = Done res →
  ∀ extra, victim_loop (fuel + extra) r = Done res.
Proof.
  revert r. induction fuel as [|fuel IH]; intros r Hrun extra; [done|].
  simpl in *. destruct (victim_step r) as [[f r'|r']| |]; simpl in *;
    try done. by apply IH.
Qed.

(** Whatever [Victim] returns on a well-formed replacer is what the sweep
    selects. *)
Lemma Victim_Some_post fuel r v r' :
  wf r → Victim fuel r = Done (Some v, r') → ∃ k, victim_post r k v r'.
Proof.
  intros Hwf. unfold Victim. case_decide as Hsz; [done|].
  assert (Hev : ∃ i, evictable r i).
  { apply count_evictable_pos. rewrite (wf_size r Hwf) in Hsz. lia. }
  assert (Hpos : (0 < capacity r)%nat).
  { destruct Hev as [e He]. apply evictable_lt in He. lia. }
  destruct (sweep_terminates r Hwf Hpos (2 * capacity r) 0 r Hev)
    as (k & v0 & r0 & _ & Hpost & Hrun); [lia | by apply sweep_inv_start |].
  destruct (victim_loop fuel r) as [[f rf]| |] eqn:Hl; simpl; try done.
  intros [= <- <-].
  pose proof (victim_loop_more _ _ _ Hl (S k)) as H1.
  rewrite Hrun in H1 by lia. simplify_eq. eauto.
Qed.

(** *** Well-formedness is kept *)

Lemma victim_post_wf r k v r' : wf r → victim_post r k v r' → wf r'.
Proof.
  intros Hwf Hp. split.
  - rewrite (vp_pins _ _ _ _ Hp), length_insert, (vp_len _ _ _ _ Hp).
    apply (wf_len r Hwf).
  - rewrite (vp_pins _ _ _ _ Hp), length_insert. apply (wf_cap r Hwf).
  - rewrite (vp_hand _ _ _ _ Hp), (vp_frame _ _ _ _ Hp). lia.
  - rewrite (vp_size _ _ _ _ Hp), (wf_size r Hwf). unfold count_evictable.
    rewrite (vp_pins _ _ _ _ Hp).
    pose proof (count_set_true _ _ (vp_evictable _ _ _ _ Hp)). lia.
Qed.

Lemma Victim_wf fuel r o r' : wf r → Victim fuel r = Done (o, r') → wf r'.
Proof.
  intros Hwf Hrun. destruct o as [v|].
  - destruct (Victim_Some_post _ _ _ _ Hwf Hrun) as [k Hpost].
    by apply (victim_post_wf r k v).
  - unfold Victim in Hrun. case_decide; [by simplify_eq|].
    destruct (victim_loop fuel r) as [[f rf]| |]; simplify_eq/=.
Qed.

Lemma Pin_wf f r : wf r → 0 <= f → ∃ r', Pin f r = Done r' ∧ wf r'.
Proof.
  intros Hwf Hf. unfold Pin. rewrite (int_size_wf r Hwf).
  case_decide as Hlt; [|by eauto].
  destruct (lookup_lt_is_Some_2 (pins_states r) (Z.to_nat f)) as [b Hb];
    [unfold capacity in *; lia|].
  rewrite (vec_at_lookup _ _ _ Hf Hb). simpl.
  destruct b; simpl; [by eauto|].
  eexists; split; [done|]. unfold vec_set. destruct Hwf as [H1 H2 H3 H4].
  split; simpl; rewrite ?length_insert; try done.
  unfold count_evictable in *. simpl.
  pose proof (count_set_true _ _ Hb). lia.
Qed.

Lemma Unpin_wf f r : wf r → 0 <= f → ∃ r', Unpin f r = Done r' ∧ wf r'.
Proof.
  intros Hwf Hf. unfold Unpin. rewrite (int_size_wf r Hwf).
  case_decide as Hlt; [|by eauto].
  destruct (lookup_lt_is_Some_2 (pins_states r) (Z.to_nat f)) as [b Hb];
    [unfold capacity in *; lia|].
  destruct (lookup_lt_is_Some_2 (access_states r) (Z.to_nat f)) as [a Ha];
    [rewrite (wf_len r Hwf); unfold capacity in *; lia|].
  rewrite (vec_at_lookup _ _ _ Hf Hb). simpl.
  destruct Hwf as [H1 H2 H3 H4].
  destruct b; simpl; rewrite (vec_at_lookup _ _ _ Hf Ha); simpl;
    (eexists; split; [done|]); unfold vec_set;
    split; simpl; rewrite ?length_insert; try done.
  unfold count_evictable in *. simpl.
  pose proof (count_set_false _ _ Hb). lia.
Qed.

(** Indices at or above the capacity are ignored. *)
Lemma Pin_above_capacity f r :
  wf r → Z.of_nat (capacity r) <= f → Pin f r = Done r.
Proof.
  intros Hwf Hf. unfold Pin. rewrite (int_size_wf r Hwf).
  by rewrite decide_False by lia.
Qed.

Lemma Unpin_above_capacity f r :
  wf r → Z.of_nat (capacity r) <= f → Unpin f r = Done r.
Proof.
  intros Hwf Hf. unfold Unpin. rewrite (int_size_wf r Hwf).
  by rewrite decide_False by lia.
Qed.

Lemma example_wf : wf example.
Proof. split; vm_compute; done. Qed.

Lemma new3_wf : wf (new 3).
Proof. apply new_wf. lia. Qed.

Lemma new3_none_evictable : ∀ i, ¬ evictable (new 3) i.
Proof. intros [|[|[|i]]]; done. Qed.

Lemma example_evictable : ∃ i, evictable example i.
Proof. by exists 1%nat. Qed.

(** The sweep over [example]: the reference bit of frame 1 is cleared,
    frame 2 is selected and the hand stops one past it. *)
Example Victim_example :
  Victim 2 example
  = Done (Some 2, mk [true; false; true] [false; false; false] 3 1).
Proof. reflexivity. Qed.

Lemma Pin_negative f r : wf r → f < 0 → Pin f r = Undef.
Proof.
  intros Hwf Hf. unfold Pin. rewrite (int_size_wf r Hwf).
  rewrite decide_True by lia. by rewrite vec_at_negative.
Qed.

Lemma Unpin_negative f r : wf r → f < 0 → Unpin f r = Undef.
Proof.
  intros Hwf Hf. unfold Unpin. rewrite (int_size_wf r Hwf).
  rewrite decide_True by lia. by rewrite vec_at_negative.
Qed.

(** C6. When at least one frame is evictable, [Victim] sweeps forward
    from the hand, wrapping at capacity: every iteration before the
    selecting one passes over a frame that is not evictable, or that is
    evictable with its reference bit set, which it clears; the selecting
    iteration [k] finds an evictable frame whose reference bit is clear
    by then, marks it not evictable, leaves the hand one past it and
    returns its index. *)
Theorem Victim_sweep r :
  wf r → (∃ i, evictable r i) →
  ∃ k v r',
    victim_post r k v r' ∧
    ∀ fuel, (k < fuel)%nat → Victim fuel r = Done (Some v, r').
Proof.
  intros Hwf Hev.
  assert (Hpos : (0 < capacity r)%nat).
  { destruct Hev as [e He]. apply evictable_lt in He. lia. }
  destruct (sweep_terminates r Hwf Hpos (2 * capacity r) 0 r Hev)
    as (k & v & r' & _ & Hpost & Hrun); [lia | by apply sweep_inv_start |].
  exists k, v, r'. split; [done|]. intros fuel Hfuel.
  unfold Victim. rewrite decide_False.
  - rewrite Hrun by lia. done.
  - apply count_evictable_pos in Hev. rewrite (wf_size r Hwf). lia.
Qed.

Lemma Victim_sweep_witness :
  wf example ∧ (∃ i, evictable example i) ∧
  ∃ k v r',
    victim_post example k v r' ∧
    ∀ fuel, (k < fuel)%nat → Victim fuel example = Done (Some v, r').
Proof.
  split; [apply example_wf|]. split; [apply example_evictable|].
  apply (Victim_sweep example); [apply example_wf | apply example_evictable].
Defined.

(** C7. [Victim] always terminates: with no evictable frame it returns
    none at once and leaves the replacer as it was; with an evictable
    frame the sweep selects a victim within two revolutions of the hand:
    the selecting iteration [k] is below [2 * capacity], the frame returned
    is the evictable frame the sweep finds there ([victim_post]), [k + 1]
    iterations of budget are enough, and so are [2 * capacity]. *)
Theorem Victim_terminates r :
  wf r →
  ((∀ i, ¬ evictable r i) → ∀ fuel, Victim fuel r = Done (None, r)) ∧
  ((∃ i, evictable r i) →
   ∃ k v r',
     (k < 2 * capacity r)%nat ∧
     victim_post r k v r' ∧
     evictable r (Z.to_nat v) ∧
     ¬ evictable r' (Z.to_nat v) ∧
     (∀ fuel, (k < fuel)%nat → Victim fuel r = Done (Some v, r')) ∧
     (∀ fuel, (2 * capacity r ≤ fuel)%nat →
        Victim fuel r = Done (Some v, r'))).
Proof.
  intros Hwf. split.
  - intros Hnone fuel. unfold Victim. rewrite decide_True; [done|].
    rewrite (wf_size r Hwf).
    destruct (decide (0 < count_evictable r)%nat) as [Hc|]; [|lia].
    apply count_evictable_pos in Hc as [i Hi]. by destruct (Hnone i).
  - intros Hev.
    assert (Hpos : (0 < capacity r)%nat).
    { destruct Hev as [e He]. apply evictable_lt in He. lia. }
    destruct (sweep_terminates r Hwf Hpos (2 * capacity r) 0 r Hev)
      as (k & v & r' & _ & Hpost & Hrun);
      [lia | by apply sweep_inv_start |].
    pose proof (vp_bound _ _ _ _ Hpost) as Hk.
    pose proof (vp_evictable _ _ _ _ Hpost) as Hsel.
    pose proof (evictable_lt _ _ Hsel) as Hlt.
    assert (Hsz : victimized_size r ≠ 0).
    { apply count_evictable_pos in Hev. rewrite (wf_size r Hwf). lia. }
    assert (Hfuel : ∀ fuel, (k < fuel)%nat →
                            Victim fuel r = Done (Some v, r')).
    { intros fuel Hf. unfold Victim. rewrite decide_False by done.
      by rewrite Hrun by lia. }
    assert (Hv : Z.to_nat v = sweep_pos (capacity r) (start_pos r) k)
      by (by rewrite (vp_frame _ _ _ _ Hpost), Nat2Z.id).
    exists k, v, r'. split; [done|]. split; [done|]. rewrite Hv.
    split; [done|]. split; [|split; [done|]].
    + unfold evictable. rewrite (vp_pins _ _ _ _ Hpost).
      rewrite list_lookup_insert_eq by apply Hlt. done.
    + intros fuel Hf. apply Hfuel. lia.
Qed.

Lemma Victim_terminates_witness :
  (wf (new 3) ∧ (∀ i, ¬ evictable (new 3) i) ∧
   ∀ fuel, Victim fuel (new 3) = Done (None, new 3)) ∧
  (wf example ∧ (∃ i, evictable example i) ∧
   ∃ k v r',
     (k < 2 * capacity example)%nat ∧
     victim_post example k v r' ∧
     evictable example (Z.to_nat v) ∧
     ¬ evictable r' (Z.to_nat v) ∧
     (∀ fuel, (k < fuel)%nat → Victim fuel example = Done (Some v, r')) ∧
     (∀ fuel, (2 * capacity example ≤ fuel)%nat →
        Victim fuel example = Done (Some v, r'))).
Proof.
  split.
  - split; [apply new3_wf|]. split; [apply new3_none_evictable|].
    apply (proj1 (Victim_terminates (new 3) new3_wf)).
    apply new3_none_evictable.
  - split; [apply example_wf|]. split; [apply example_evictable|].
    apply (proj2 (Victim_terminates example example_wf)).
    apply example_evictable.
Defined.

(** C9, at a negative index.  The guard of [Pin] and of [Unpin] compares
    the index with the size only, so index -1 passes it and the vector is
    read outside its bounds: the call is not a no-op. *)
Theorem Pin_Unpin_negative_index :
  Pin (-1) (new 3) = Undef ∧ Unpin (-1) (new 3) = Undef.
Proof. split; reflexivity. Qed.

End ClockReplacerFacts.

(** ** The buffer pool manager *)

Module BufferPoolManagerFacts.
Import BufferPoolManager.

(** *** The concrete pools are reached by the code *)

Example pool_fetched_reached :
  FetchPageImpl 0 5 (new 3 2 disk5) = Done (Some 0, pool_fetched).
Proof. reflexivity. Qed.

Example pool_dirty_reached :
  UnpinPageImpl 5 true pool_fetched = Done (true, pool_dirty).
Proof. reflexivity. Qed.

Example pool_clean_reached :
  UnpinPageImpl 5 false pool_fetched = Done (true, pool_clean).
Proof. reflexivity. Qed.

Example pool_one_dirty_reached :
  ('(_, bp) ← FetchPageImpl 0 5 (new 1 2 disk5); UnpinPageImpl 5 true bp)
  = Done (true, pool_one_dirty).
Proof. reflexivity. Qed.

(** *** Single operations *)

Lemma getPageByFrameId_set_replacer f r bp :
  getPageByFrameId f (set_replacer r bp) = getPageByFrameId f bp.
Proof. done. Qed.

(** The hit path of [FetchPageImpl] touches the replacer only. *)
Lemma FetchPageImpl_hit fuel page_id f bp h bp' :
  resident bp page_id f →
  FetchPageImpl fuel page_id bp = Done (h, bp') →
  h = Some f ∧ ∃ r, ClockReplacer.Pin f (replacer_ bp) = Done r
                    ∧ bp' = set_replacer r bp.
Proof.
  unfold resident, FetchPageImpl, getFrameId. intros -> Hrun.
  destruct (ClockReplacer.Pin f (replacer_ bp)) as [r| |]; simpl in Hrun;
    try done.
  destruct (getPageByFrameId f bp); simpl in Hrun; try done.
  injection Hrun as <- <-. eauto.
Qed.

(** [FlushPageImpl] on a resident dirty page: the payload is written, the
    flag is cleared, and the value returned is [false]. *)
Lemma FlushPageImpl_dirty page_id f pg bp :
  resident bp page_id f →
  getPageByFrameId f bp = Done pg →
  is_dirty_ pg = true →
  FlushPageImpl page_id bp
  = Done (false,
          set_disk_manager
            (DiskManager.WritePage page_id (data_ pg) (disk_manager_ bp))
            (store_page f
               (mkPage (data_ pg) (page_id_ pg) (pin_count_ pg) false) bp)).
Proof.
  unfold resident, FlushPageImpl, getFrameId. intros -> -> Hd. simpl.
  by rewrite Hd.
Qed.

Lemma FlushPageImpl_clean page_id f pg bp :
  resident bp page_id f →
  getPageByFrameId f bp = Done pg →
  is_dirty_ pg = false →
  FlushPageImpl page_id bp = Done (false, bp).
Proof.
  unfold resident, FlushPageImpl, getFrameId. intros -> -> Hd. simpl.
  by rewrite Hd.
Qed.

(** [DeletePageImpl] on a resident page nobody holds: neither the
    replacer nor the disk manager hears of it, and the value returned is
    [false]. *)
Lemma DeletePageImpl_unpinned page_id f pg bp :
  resident bp page_id f →
  getPageByFrameId f bp = Done pg →
  pin_count_ pg = 0 →
  DeletePageImpl page_id bp
  = Done (false,
          mk (vec_set (pages_ bp) f (ResetMemory pg))
             (delete (page_id_ pg) (page_table_ bp))
             (free_list_ bp ++ [f])
             (replacer_ bp) (disk_manager_ bp)).
Proof.
  unfold resident, DeletePageImpl, getFrameId. intros -> -> Hpin. simpl.
  by rewrite decide_False by lia.
Qed.

(** *** The replacer and the pin counts *)

Lemma replacer_tracks_new pool_size page_size disk :
  replacer_tracks (new pool_size page_size disk).
Proof.
  intros f pg Hf. unfold ClockReplacer.evictable, holds_page, resident.
  simpl in *. split.
  - intros Hev. apply lookup_replicate in Hev as [? _]. done.
  - intros [_ [p Hp]]. by rewrite lookup_empty in Hp.
Qed.

Lemma replacer_tracks_pool_clean : replacer_tracks pool_clean.
Proof.
  intros f pg Hf. unfold ClockReplacer.evictable, holds_page, resident.
  destruct f as [|[|[|f]]]; simpl in *; simplify_eq/=.
  - split; [intros _|done]. split; [done|]. by exists 5.
  - split; [done|]. intros [_ [p Hp]].
    apply lookup_singleton_Some in Hp as [_ ?]. done.
  - split; [done|]. intros [_ [p Hp]].
    apply lookup_singleton_Some in Hp as [_ ?]. done.
Qed.

(** *** Claims about single operations *)

(** C1, on the pool reached by [Fetch(5); Unpin(5, true)].  Page 5 is
    resident and dirty; [FlushPageImpl] writes its payload through
    [WritePage] and clears the dirty flag, but the value it returns is
    [false], where the claim has [true]. *)
Theorem FlushPageImpl_dirty_returns_false :
  resident pool_dirty 5 0 ∧
  page_dirty pool_dirty 5 = true ∧
  ∃ bp',
    FlushPageImpl 5 pool_dirty = Done (false, bp') ∧
    DiskManager.calls (disk_manager_ bp')
    = DiskManager.calls (disk_manager_ pool_dirty)
      ++ [DiskManager.CWritePage 5 [x01; x02]] ∧
    page_dirty bp' 5 = false.
Proof.
  split; [done|]. split; [done|].
  eexists. split; [|split].
  - by apply (FlushPageImpl_dirty 5 0 (mkPage [x01; x02] 5 0 true)).
  - done.
  - done.
Qed.

(** C2, on the pool reached by [Fetch(5)].  Page 5 is resident in frame
    0 with pin count 1; a second [Fetch(5)] pins frame 0 in the replacer
    and returns the handle onto frame 0, but the pin count of the frame
    is 1 as before, where the claim has 2. *)
Theorem FetchPageImpl_hit_keeps_pin_count :
  resident pool_fetched 5 0 ∧
  pin_count_ <$> pages_ pool_fetched !! 0%nat = Some 1 ∧
  ∃ bp',
    FetchPageImpl 0 5 pool_fetched = Done (Some 0, bp') ∧
    ClockReplacer.Pin 0 (replacer_ pool_fetched) = Done (replacer_ bp') ∧
    pin_count_ <$> pages_ bp' !! 0%nat = Some 1.
Proof.
  split; [done|]. split; [done|].
  eexists. split; [reflexivity|]. split; reflexivity.
Qed.

(** C4, on the pool reached by [Fetch(5); Unpin(5, false)].  Page 5 is
    resident with pin count 0; [DeletePageImpl] erases the entry of the
    page table, resets the memory of the frame and appends the frame to
    the free list, but the replacer still holds frame 0 as a candidate,
    the disk manager receives no call, and the value returned is
    [false]. *)
Theorem DeletePageImpl_unpinned_returns_false :
  resident pool_clean 5 0 ∧
  pin_count_ <$> pages_ pool_clean !! 0%nat = Some 0 ∧
  ∃ bp',
    DeletePageImpl 5 pool_clean = Done (false, bp') ∧
    page_table_ bp' !! 5 = None ∧
    data_ <$> pages_ bp' !! 0%nat = Some [x00; x00] ∧
    free_list_ bp' = [1; 2; 0] ∧
    replacer_ bp' = replacer_ pool_clean ∧
    ClockReplacer.evictable (replacer_ bp') 0 ∧
    disk_manager_ bp' = disk_manager_ pool_clean.
Proof.
  split; [done|]. split; [done|].
  eexists. split.
  - by apply (DeletePageImpl_unpinned 5 0 (mkPage [x01; x02] 5 0 false)).
  - repeat split; done.
Qed.

(** C5, on the pool reached by [Fetch(5); Unpin(5, false)], where the
    invariant holds.  After [DeletePageImpl 5] frame 0 holds no page and
    is still a candidate of the replacer; after [FetchPageImpl 5] (a hit)
    frame 0 holds page 5 with pin count 0 and is not a candidate.  The
    invariant is kept by neither. *)
Theorem replacer_tracks_not_kept :
  replacer_tracks pool_clean ∧
  (∃ bp',
     DeletePageImpl 5 pool_clean = Done (false, bp') ∧
     ¬ replacer_tracks bp') ∧
  (∃ bp',
     FetchPageImpl 0 5 pool_clean = Done (Some 0, bp') ∧
     ¬ replacer_tracks bp').
Proof.
  split; [apply replacer_tracks_pool_clean|]. split.
  - eexists. split.
    + by apply (DeletePageImpl_unpinned 5 0 (mkPage [x01; x02] 5 0 false)).
    + intros Htr.
      destruct (Htr 0%nat (mkPage [x00; x00] 5 0 false) eq_refl)
        as [Hholds _].
      destruct Hholds as [_ [p Hp]]; [done|].
      unfold resident in Hp. simpl in Hp.
      rewrite delete_singleton_eq in Hp. by rewrite lookup_empty in Hp.
  - eexists. split; [reflexivity|].
    intros Htr.
    destruct (Htr 0%nat (mkPage [x01; x02] 5 0 false) eq_refl)
      as [_ Hev].
    unfold ClockReplacer.evictable in Hev. simpl in Hev.
    assert (Some true = Some false); [|done].
    apply Hev. split; [done|]. by exists 5.
Qed.

(** C8. For a resident page whose frame has pin count zero,
    [UnpinPageImpl] returns [false] and the pool - page table, free
    list, frames, replacer and disk manager - is the pool it was called
    on. *)
Theorem UnpinPageImpl_zero_pin_count page_id is_dirty f pg bp :
  resident bp page_id f →
  getPageByFrameId f bp = Done pg →
  pin_count_ pg = 0 →
  UnpinPageImpl page_id is_dirty bp = Done (false, bp).
Proof.
  unfold resident, UnpinPageImpl, getFrameId. intros -> -> Hpin. simpl.
  by rewrite decide_True by lia.
Qed.

Lemma UnpinPageImpl_zero_pin_count_witness :
  resident pool_clean 5 0 ∧
  getPageByFrameId 0 pool_clean = Done (mkPage [x01; x02] 5 0 false) ∧
  pin_count_ (mkPage [x01; x02] 5 0 false) = 0 ∧
  UnpinPageImpl 5 true pool_clean = Done (false, pool_clean).
Proof.
  split; [reflexivity|]. split; [reflexivity|]. split; [reflexivity|].
  apply (UnpinPageImpl_zero_pin_count 5 true 0
           (mkPage [x01; x02] 5 0 false) pool_clean); reflexivity.
Defined.

(** *** Eviction of a dirty victim *)

(** The frame [Victim] returns is inside the pool of the replacer, and
    pinning it afterwards changes nothing. *)
Lemma Pin_after_Victim fuel r v r' :
  ClockReplacer.wf r →
  ClockReplacer.Victim fuel r = Done (Some v, r') →
  0 <= v < Z.of_nat (ClockReplacer.capacity r) ∧
  ClockReplacer.Pin v r' = Done r'.
Proof.
  intros Hwf Hv.
  destruct (ClockReplacerFacts.Victim_Some_post _ _ _ _ Hwf Hv)
    as [k Hpost].
  pose proof (ClockReplacerFacts.victim_post_wf _ _ _ _ Hwf Hpost) as Hwf'.
  pose proof (ClockReplacerFacts.evictable_lt _ _
                (ClockReplacer.vp_evictable _ _ _ _ Hpost)) as Hlt.
  pose proof (ClockReplacer.vp_frame _ _ _ _ Hpost) as Hfr.
  split; [lia|].
  unfold ClockReplacer.Pin.
  rewrite (ClockReplacerFacts.int_size_wf r' Hwf').
  case_decide; [|done].
  rewrite (vec_at_lookup _ _ true); [done | lia |].
  rewrite (ClockReplacer.vp_pins _ _ _ _ Hpost), Hfr, Nat2Z.id.
  by apply list_lookup_insert_eq.
Qed.

Lemma Victim_Some_Size fuel r v r' :
  ClockReplacer.wf r →
  ClockReplacer.Victim fuel r = Done (Some v, r') →
  ClockReplacer.Size r ≠ 0.
Proof.
  intros Hwf. unfold ClockReplacer.Victim, ClockReplacer.Size.
  case_decide as Hsz; [done|]. intros _.
  pose proof (ClockReplacerFacts.count_evictable_le r).
  pose proof (ClockReplacer.wf_cap r Hwf).
  pose proof (ClockReplacer.wf_size r Hwf).
  unfold ClockReplacer.capacity in *.
  rewrite Z.mod_small; lia.
Qed.

(** C3. On a miss of [FetchPageImpl], and in [NewPageImpl], when the
    free list is empty and the victim the replacer returns is dirty, the
    payload of the victim is written through [WritePage] before the
    frame is reused (before the read of the requested page, or the
    allocation of the new one), and the entry of the victim's old page is
    erased from the page table before the new entry is inserted. *)
Theorem dirty_victim_written_back fuel page_id bp v r' pg :
  ClockReplacer.wf (replacer_ bp) →
  free_list_ bp = [] →
  ClockReplacer.Victim fuel (replacer_ bp) = Done (Some v, r') →
  getPageByFrameId v bp = Done pg →
  is_dirty_ pg = true →
  (getFrameId page_id bp = None →
   ∃ bp',
     FetchPageImpl fuel page_id bp = Done (Some v, bp') ∧
     DiskManager.calls (disk_manager_ bp')
     = DiskManager.calls (disk_manager_ bp)
       ++ [DiskManager.CWritePage (page_id_ pg) (data_ pg);
           DiskManager.CReadPage page_id] ∧
     page_table_ bp'
     = <[page_id := v]> (delete (page_id_ pg) (page_table_ bp))) ∧
  (∃ bp',
     let new_page_id := DiskManager.next_page_id (disk_manager_ bp) in
     NewPageImpl fuel bp = Done (Some (v, new_page_id), bp') ∧
     DiskManager.calls (disk_manager_ bp')
     = DiskManager.calls (disk_manager_ bp)
       ++ [DiskManager.CWritePage (page_id_ pg) (data_ pg);
           DiskManager.CAllocatePage new_page_id] ∧
     page_table_ bp'
     = table_insert new_page_id v
         (delete (page_id_ pg) (page_table_ bp))).
Proof.
  intros Hwf Hfree Hvictim Hpg Hdirty.
  destruct (Pin_after_Victim _ _ _ _ Hwf Hvictim) as [Hrange Hpin].
  assert (Hpick : pickVictimPage fuel bp
    = Done (v,
            mk (pages_ bp) (delete (page_id_ pg) (page_table_ bp)) []
               r'
               (DiskManager.WritePage (page_id_ pg) (data_ pg)
                  (disk_manager_ bp)))).
  { unfold pickVictimPage. rewrite Hfree, Hvictim. simpl.
    rewrite getPageByFrameId_set_replacer, Hpg. simpl.
    rewrite Hdirty. unfold set_page_table, set_disk_manager, set_replacer.
    simpl. by rewrite Hfree. }
  split.
  - intros Hmiss. unfold FetchPageImpl. rewrite Hmiss, Hpick. simpl.
    rewrite decide_False by lia.
    unfold getPageByFrameId in *. simpl. rewrite Hpg. simpl.
    rewrite Hpin. simpl.
    eexists. split; [done|]. simpl. split.
    + by rewrite <- app_assoc.
    + unfold table_insert.
      assert (Hnone : delete (page_id_ pg) (page_table_ bp) !! page_id
                      = None).
      { apply lookup_delete_None. by right. }
      by rewrite Hnone.
  - unfold NewPageImpl, isAllPined.
    rewrite bool_decide_eq_false_2.
    2:{ intros [_ Hsz].
        by apply (Victim_Some_Size _ _ _ _ Hwf Hvictim). }
    rewrite Hpick. simpl.
    rewrite decide_False by lia.
    unfold getPageByFrameId in *. simpl. rewrite Hpg. simpl.
    eexists. split; [done|]. simpl. split.
    + by rewrite <- app_assoc.
    + done.
Qed.

Lemma pool_one_dirty_replacer_wf :
  ClockReplacer.wf (replacer_ pool_one_dirty).
Proof. split; vm_compute; done. Qed.

Lemma dirty_victim_written_back_witness :
  ClockReplacer.wf (replacer_ pool_one_dirty) ∧
  free_list_ pool_one_dirty = [] ∧
  ClockReplacer.Victim 2 (replacer_ pool_one_dirty)
  = Done (Some 0, ClockReplacer.mk [true] [false] 1 0) ∧
  getPageByFrameId 0 pool_one_dirty = Done (mkPage [x01; x02] 5 0 true) ∧
  getFrameId 7 pool_one_dirty = None ∧
  (∃ bp',
     FetchPageImpl 2 7 pool_one_dirty = Done (Some 0, bp') ∧
     DiskManager.calls (disk_manager_ bp')
     = [DiskManager.CReadPage 5; DiskManager.CWritePage 5 [x01; x02];
        DiskManager.CReadPage 7] ∧
     page_table_ bp' = <[7 := 0]> (delete 5 {[5 := 0]})) ∧
  (∃ bp',
     NewPageImpl 2 pool_one_dirty = Done (Some (0, 6), bp') ∧
     DiskManager.calls (disk_manager_ bp')
     = [DiskManager.CReadPage 5; DiskManager.CWritePage 5 [x01; x02];
        DiskManager.CAllocatePage 6] ∧
     page_table_ bp' = table_insert 6 0 (delete 5 {[5 := 0]})).
Proof.
  split; [apply pool_one_dirty_replacer_wf|].
  split; [reflexivity|]. split; [reflexivity|]. split; [reflexivity|].
  split; [reflexivity|].
  destruct (dirty_victim_written_back 2 7 pool_one_dirty 0
              (ClockReplacer.mk [true] [false] 1 0)
              (mkPage [x01; x02] 5 0 true)
              pool_one_dirty_replacer_wf eq_refl eq_refl eq_refl eq_refl)
    as [Hfetch Hnew].
  split; [apply Hfetch; reflexivity | apply Hnew].
Defined.

(** *** Flushing every page *)

Lemma table_ok_transfer bp bp1 :
  page_table_ bp1 = page_table_ bp →
  length (pages_ bp1) = length (pages_ bp) →
  table_ok bp → table_ok bp1.
Proof.
  intros Hpt Hlen [Hinj Hrange]. unfold resident in *.
  split; unfold resident; rewrite ?Hpt, ?Hlen; eauto.
Qed.

Lemma count_writes_app p ws1 ws2 :
  DiskManager.count_writes p (ws1 ++ ws2)
  = (DiskManager.count_writes p ws1 + DiskManager.count_writes p ws2)%nat.
Proof.
  unfold DiskManager.count_writes. by rewrite filter_app, length_app.
Qed.

(** One call of [FlushPageImpl] on a resident page, told by pages. *)
Lemma FlushPageImpl_resident bp p f :
  table_ok bp → resident bp p f →
  ∃ bp1 ws1,
    FlushPageImpl p bp = Done (false, bp1) ∧
    page_table_ bp1 = page_table_ bp ∧
    length (pages_ bp1) = length (pages_ bp) ∧
    page_dirty bp1 p = false ∧
    (∀ q, q ≠ p → page_dirty bp1 q = page_dirty bp q) ∧
    DiskManager.calls (disk_manager_ bp1)
    = DiskManager.calls (disk_manager_ bp) ++ ws1 ∧
    ∀ q, DiskManager.count_writes q ws1
         = if bool_decide (q = p) && page_dirty bp p then 1%nat else 0%nat.
Proof.
  intros Hok Hres.
  pose proof (table_range bp Hok p f Hres) as Hf.
  destruct (lookup_lt_is_Some_2 (pages_ bp) (Z.to_nat f)) as [pg Hpg];
    [lia|].
  assert (Hget : getPageByFrameId f bp = Done pg)
    by (apply vec_at_lookup; [lia | done]).
  assert (Hd : page_dirty bp p = is_dirty_ pg).
  { unfold page_dirty. unfold resident in Hres. unfold getFrameId.
    by rewrite Hres, Hget. }
  destruct (is_dirty_ pg) eqn:Hdirty.
  - eexists _, [DiskManager.CWritePage p (data_ pg)].
    split; [by apply (FlushPageImpl_dirty p f pg)|].
    split; [done|]. split; [apply length_insert|].
    split; [|split; [|split]].
    + unfold page_dirty, getFrameId, getPageByFrameId. simpl.
      unfold resident in Hres. rewrite Hres.
      rewrite (vec_at_lookup _ _
                 (mkPage (data_ pg) (page_id_ pg) (pin_count_ pg) false));
        [done | lia |].
      apply list_lookup_insert_eq. lia.
    + intros q Hq. unfold page_dirty, getFrameId, getPageByFrameId. simpl.
      destruct (page_table_ bp !! q) as [g|] eqn:Hg; [|done].
      assert (g ≠ f).
      { intros ->. apply Hq. by apply (table_inj bp Hok q p f). }
      pose proof (table_range bp Hok q g Hg).
      unfold vec_at. rewrite !decide_True by lia.
      unfold vec_set. rewrite list_lookup_insert_ne by lia. done.
    + done.
    + intros q. rewrite Hd. unfold DiskManager.count_writes. simpl.
      destruct (decide (q = p)) as [->|Hne].
      * rewrite bool_decide_eq_true_2 by done. simpl.
        rewrite filter_cons_True; [done|].
        simpl. by rewrite bool_decide_eq_true_2.
      * rewrite (bool_decide_eq_false_2 (q = p)) by done. simpl.
        rewrite filter_cons_False; [done|].
        simpl. rewrite bool_decide_eq_false_2 by congruence. done.
  - exists bp, [].
    split; [by apply (FlushPageImpl_clean p f pg)|].
    split; [done|]. split; [done|]. split; [done|]. split; [done|].
    split; [by rewrite app_nil_r|].
    intros q. rewrite Hd. by rewrite andb_false_r.
Qed.

Lemma flush_each_spec (l : list (Z * Z)) :
  ∀ bp,
    table_ok bp →
    NoDup l.*1 →
    (∀ p f, (p, f) ∈ l → resident bp p f) →
    ∃ bp' ws,
      flush_each l bp = Done bp' ∧
      page_table_ bp' = page_table_ bp ∧
      length (pages_ bp') = length (pages_ bp) ∧
      (∀ p, p ∈ l.*1 → page_dirty bp' p = false) ∧
      (∀ p, p ∉ l.*1 → page_dirty bp' p = page_dirty bp p) ∧
      DiskManager.calls (disk_manager_ bp')
      = DiskManager.calls (disk_manager_ bp) ++ ws ∧
      ∀ p, DiskManager.count_writes p ws
           = if bool_decide (p ∈ l.*1) && page_dirty bp p
             then 1%nat else 0%nat.
Proof.
  induction l as [|[p f] l IH]; intros bp Hok Hnd Hres.
  { exists bp, []. simpl. repeat split; try done.
    - intros p Hp. by apply not_elem_of_nil in Hp.
    - by rewrite app_nil_r. }
  rewrite fmap_cons in Hnd. simpl in Hnd.
  apply NoDup_cons in Hnd as [Hp Hnd].
  destruct (FlushPageImpl_resident bp p f Hok) as
    (bp1 & ws1 & Hrun & Hpt1 & Hlen1 & Hclean1 & Hother1 & Hcalls1 & Hcnt1);
    [apply Hres; left|].
  destruct (IH bp1) as
    (bp' & ws & Hrun' & Hpt' & Hlen' & Hclean' & Hother' & Hcalls' & Hcnt');
    [by apply (table_ok_transfer bp) | done | |].
  { intros q g Hq. unfold resident. rewrite Hpt1. apply Hres. by right. }
  exists bp', (ws1 ++ ws). rewrite fmap_cons. cbn [fst].
  split; [by simpl; rewrite Hrun|].
  split; [congruence|]. split; [congruence|].
  split; [|split; [|split]].
  - intros q Hq. apply elem_of_cons in Hq as [->|Hq].
    + rewrite Hother' by done. done.
    + by apply Hclean'.
  - intros q Hq. apply not_elem_of_cons in Hq as [Hne Hq].
    rewrite Hother' by done. by apply Hother1.
  - rewrite Hcalls', Hcalls1. by rewrite app_assoc.
  - intros q. rewrite count_writes_app, Hcnt1, Hcnt'.
    destruct (decide (q = p)) as [->|Hne].
    + rewrite (bool_decide_eq_true_2 (p = p)) by done.
      rewrite (bool_decide_eq_false_2 (p ∈ l.*1)) by done.
      rewrite (bool_decide_eq_true_2 (p ∈ p :: l.*1)) by left.
      simpl. by destruct (page_dirty bp p).
    + rewrite (bool_decide_eq_false_2 (q = p)) by done. simpl.
      rewrite (Hother1 q Hne).
      destruct (decide (q ∈ l.*1)) as [Hin|Hnin].
      * rewrite (bool_decide_eq_true_2 (q ∈ l.*1)) by done.
        rewrite (bool_decide_eq_true_2 (q ∈ p :: l.*1)) by (by right).
        done.
      * rewrite (bool_decide_eq_false_2 (q ∈ l.*1)) by done.
        rewrite (bool_decide_eq_false_2 (q ∈ p :: l.*1)); [done|].
        by apply not_elem_of_cons.
Qed.

(** C10. After [FlushAllPagesImpl], whatever the order of the iteration
    over the page table, no resident page is dirty, and the calls the
    disk manager received during the call hold [WritePage] exactly once
    for each page that was resident and dirty at the start and not at all
    for the others. *)
Theorem FlushAllPagesImpl_flushes order bp :
  table_ok bp →
  iteration_order order bp →
  ∃ bp' ws,
    FlushAllPagesImpl_in order bp = Done bp' ∧
    page_table_ bp' = page_table_ bp ∧
    (∀ p f, resident bp' p f →
       ∃ pg, getPageByFrameId f bp' = Done pg ∧ is_dirty_ pg = false) ∧
    DiskManager.calls (disk_manager_ bp')
    = DiskManager.calls (disk_manager_ bp) ++ ws ∧
    ∀ p, DiskManager.count_writes p ws
         = if page_dirty bp p then 1%nat else 0%nat.
Proof.
  intros Hok Hord. unfold iteration_order in Hord.
  assert (Hin : ∀ p f, (p, f) ∈ order ↔ resident bp p f).
  { intros p f. rewrite Hord. apply elem_of_map_to_list. }
  assert (Hkeys : ∀ p, p ∈ order.*1 ↔ is_Some (page_table_ bp !! p)).
  { intros p. rewrite list_elem_of_fmap. split.
    - intros [[q f] [-> Hq]]. apply Hin in Hq. by exists f.
    - intros [f Hf]. exists (p, f). split; [done|]. by apply Hin. }
  destruct (flush_each_spec order bp Hok) as
    (bp' & ws & Hrun & Hpt & Hlen & Hclean & Hother & Hcalls & Hcnt).
  { rewrite Hord. apply NoDup_fst_map_to_list. }
  { intros p f. apply Hin. }
  exists bp', ws. split; [done|]. split; [done|]. split; [|split; [done|]].
  - intros p f Hres.
    assert (Hok' : table_ok bp') by (by apply (table_ok_transfer bp)).
    pose proof (table_range bp' Hok' p f Hres) as Hf.
    destruct (lookup_lt_is_Some_2 (pages_ bp') (Z.to_nat f)) as [pg Hpg];
      [lia|].
    assert (Hget : getPageByFrameId f bp' = Done pg)
      by (apply vec_at_lookup; [lia | done]).
    exists pg. split; [done|].
    assert (Hd : page_dirty bp' p = false).
    { apply Hclean. apply Hkeys.
      unfold resident in Hres. rewrite Hpt in Hres. by exists f. }
    unfold page_dirty, getFrameId in Hd. unfold resident in Hres.
    by rewrite Hres, Hget in Hd.
  - intros p. rewrite Hcnt.
    destruct (decide (p ∈ order.*1)) as [Hp|Hp].
    + by rewrite bool_decide_eq_true_2.
    + rewrite bool_decide_eq_false_2 by done. simpl.
      unfold page_dirty, getFrameId.
      destruct (page_table_ bp !! p) as [f|] eqn:Hf; [|done].
      destruct Hp. apply Hkeys. by exists f.
Qed.

Lemma pool_dirty_table_ok : table_ok pool_dirty.
Proof.
  split; unfold resident; simpl.
  - intros p1 p2 f H1 H2.
    apply lookup_singleton_Some in H1 as [<- _].
    by apply lookup_singleton_Some in H2 as [<- _].
  - intros p f H1. apply lookup_singleton_Some in H1 as [_ <-]. lia.
Qed.

Lemma pool_dirty_order : iteration_order [(5, 0)] pool_dirty.
Proof.
  unfold iteration_order. simpl. by rewrite map_to_list_singleton.
Qed.

Lemma FlushAllPagesImpl_flushes_witness :
  table_ok pool_dirty ∧
  iteration_order [(5, 0)] pool_dirty ∧
  ∃ bp' ws,
    FlushAllPagesImpl_in [(5, 0)] pool_dirty = Done bp' ∧
    page_table_ bp' = page_table_ pool_dirty ∧
    (∀ p f, resident bp' p f →
       ∃ pg, getPageByFrameId f bp' = Done pg ∧ is_dirty_ pg = false) ∧
    DiskManager.calls (disk_manager_ bp')
    = DiskManager.calls (disk_manager_ pool_dirty) ++ ws ∧
    ∀ p, DiskManager.count_writes p ws
         = if page_dirty pool_dirty p then 1%nat else 0%nat.
Proof.
  split; [apply pool_dirty_table_ok|].
  split; [apply pool_dirty_order|].
  apply (FlushAllPagesImpl_flushes [(5, 0)] pool_dirty);
    [apply pool_dirty_table_ok | apply pool_dirty_order].
Defined.

End BufferPoolManagerFacts.

(** ** More on the clock replacer *)

Module ClockReplacerMore.
Import ClockReplacer SweepArith ClockReplacerFacts ReplacerRun.

Lemma Size_wf r : wf r → Size r = Z.of_nat (count_evictable r).
Proof.
  intros Hwf. unfold Size. rewrite (wf_size r Hwf).
  pose proof (count_evictable_le r). pose proof (wf_cap r Hwf).
  unfold capacity in *. apply Z.mod_small. lia.
Qed.

Lemma Pin_in_range f r :
  wf r → 0 <= f < Z.of_nat (capacity r) →
  ∃ b, pins_states r !! Z.to_nat f = Some b ∧
       Pin f r
       = Done (if (b : bool) then r
               else mk (<[Z.to_nat f := true]> (pins_states r))
                       (access_states r) (clock_pointer r)
                       (victimized_size r - 1)).
Proof.
  intros Hwf Hf.
  destruct (lookup_lt_is_Some_2 (pins_states r) (Z.to_nat f)) as [b Hb];
    [unfold capacity in *; lia|].
  exists b. split; [done|]. unfold Pin.
  rewrite (int_size_wf r Hwf), decide_True by lia.
  rewrite (vec_at_lookup _ _ b) by (done || lia). by destruct b.
Qed.

Lemma Unpin_in_range f r :
  wf r → 0 <= f < Z.of_nat (capacity r) →
  ∃ b, pins_states r !! Z.to_nat f = Some b ∧
       Unpin f r
       = Done (mk (<[Z.to_nat f := false]> (pins_states r))
                  (<[Z.to_nat f := true]> (access_states r))
                  (clock_pointer r)
                  (victimized_size r + (if (b : bool) then 1 else 0))).
Proof.
  intros Hwf Hf.
  destruct (lookup_lt_is_Some_2 (pins_states r) (Z.to_nat f)) as [b Hb];
    [unfold capacity in *; lia|].
  destruct (lookup_lt_is_Some_2 (access_states r) (Z.to_nat f)) as [a Ha];
    [rewrite (wf_len r Hwf); unfold capacity in *; lia|].
  exists b. split; [done|]. unfold Unpin.
  rewrite (int_size_wf r Hwf), decide_True by lia.
  rewrite (vec_at_lookup _ _ b) by (done || lia). simpl.
  destruct b; simpl; rewrite (vec_at_lookup _ _ a) by (done || lia); simpl.
  - done.
  - unfold vec_set. rewrite (list_insert_id (pins_states r)) by done.
    by rewrite Z.add_0_r.
Qed.

Lemma record_eta (r : t) :
  mk (pins_states r) (access_states r) (clock_pointer r) (victimized_size r)
  = r.
Proof. by destruct r. Qed.

(** X1. [Pin] on an index inside the replacer marks the frame not
    evictable and touches nothing else: every other frame keeps its status,
    all reference bits and the hand are as before, and [Size] drops by one
    exactly when the frame was evictable. *)
Theorem Pin_effect f r :
  wf r → 0 <= f < Z.of_nat (capacity r) →
  ∃ r',
    Pin f r = Done r' ∧
    pins_states r' = <[Z.to_nat f := true]> (pins_states r) ∧
    access_states r' = access_states r ∧
    clock_pointer r' = clock_pointer r ∧
    Size r' =
      Size r
      - (if bool_decide (pins_states r !! Z.to_nat f = Some false)
         then 1 else 0).
Proof.
  intros Hwf Hf.
  destruct (Pin_in_range f r Hwf Hf) as (b & Hb & Hrun).
  destruct (Pin_wf f r Hwf) as (r' & Hrun' & Hwf'); [lia|].
  exists r'. split; [done|].
  rewrite Hrun in Hrun'. injection Hrun' as <-.
  rewrite (Size_wf r Hwf). unfold evictable.
  destruct b.
  - rewrite (Size_wf r Hwf).
    rewrite bool_decide_eq_false_2 by congruence.
    rewrite list_insert_id by done. repeat split; try done. lia.
  - rewrite (Size_wf _ Hwf'). rewrite bool_decide_eq_true_2 by done.
    repeat split; try done. simpl.
    unfold count_evictable. simpl.
    pose proof (count_set_true _ _ Hb). lia.
Qed.

Lemma Pin_effect_witness :
  wf example ∧ 0 <= 1 < Z.of_nat (capacity example) ∧
  ∃ r',
    Pin 1 example = Done r' ∧
    pins_states r' = <[Z.to_nat 1 := true]> (pins_states example) ∧
    access_states r' = access_states example ∧
    clock_pointer r' = clock_pointer example ∧
    Size r' =
      Size example
      - (if bool_decide (pins_states example !! Z.to_nat 1 = Some false)
         then 1 else 0).
Proof.
  split; [apply example_wf|]. split; [vm_compute; by split|].
  apply (Pin_effect 1 example); [apply example_wf | vm_compute; by split].
Defined.

(** X2. [Unpin] on an index inside the replacer marks the frame evictable
    and sets its reference bit, also when the frame was evictable already;
    the other frames, the other reference bits and the hand are as before,
    and [Size] grows by one exactly when the frame was not evictable. *)
Theorem Unpin_effect f r :
  wf r → 0 <= f < Z.of_nat (capacity r) →
  ∃ r',
    Unpin f r = Done r' ∧
    pins_states r' = <[Z.to_nat f := false]> (pins_states r) ∧
    access_states r' = <[Z.to_nat f := true]> (access_states r) ∧
    clock_pointer r' = clock_pointer r ∧
    Size r' =
      Size r
      + (if bool_decide (pins_states r !! Z.to_nat f = Some false)
         then 0 else 1).
Proof.
  intros Hwf Hf.
  destruct (Unpin_in_range f r Hwf Hf) as (b & Hb & Hrun).
  destruct (Unpin_wf f r Hwf) as (r' & Hrun' & Hwf'); [lia|].
  exists r'. split; [done|].
  rewrite Hrun in Hrun'. injection Hrun' as <-.
  repeat split; try done.
  rewrite (Size_wf r Hwf). unfold Size. simpl.
  rewrite (wf_size r Hwf).
  pose proof (count_evictable_le r). pose proof (wf_cap r Hwf).
  unfold capacity, evictable in *.
  destruct b.
  - rewrite bool_decide_eq_false_2 by congruence.
    pose proof (wf_size _ Hwf') as Hsz. simpl in Hsz.
    apply Z.mod_small. lia.
  - rewrite bool_decide_eq_true_2 by done. apply Z.mod_small. lia.
Qed.

Lemma Unpin_effect_witness :
  wf example ∧ 0 <= 0 < Z.of_nat (capacity example) ∧
  ∃ r',
    Unpin 0 example = Done r' ∧
    pins_states r' = <[Z.to_nat 0 := false]> (pins_states example) ∧
    access_states r' = <[Z.to_nat 0 := true]> (access_states example) ∧
    clock_pointer r' = clock_pointer example ∧
    Size r' =
      Size example
      + (if bool_decide (pins_states example !! Z.to_nat 0 = Some false)
         then 0 else 1).
Proof.
  split; [apply example_wf|]. split; [vm_compute; by split|].
  apply (Unpin_effect 0 example); [apply example_wf | vm_compute; by split].
Defined.

Lemma Pin_capacity f r r' : Pin f r = Done r' → capacity r' = capacity r.
Proof.
  unfold Pin, capacity. case_decide; [|by intros [= <-]].
  destruct (vec_at (pins_states r) f) as [[]| |]; simpl; try done.
  - by intros [= <-].
  - intros [= <-]. simpl. apply length_insert.
Qed.

Lemma Unpin_capacity f r r' : Unpin f r = Done r' → capacity r' = capacity r.
Proof.
  unfold Unpin, capacity. case_decide; [|by intros [= <-]].
  destruct (vec_at (pins_states r) f) as [[]| |]; simpl; try done.
  - destruct (vec_at _ f); simpl; try done.
    intros [= <-]. simpl. apply length_insert.
  - destruct (vec_at _ f); simpl; try done.
    by intros [= <-].
Qed.

Lemma victim_post_capacity r k v r' :
  victim_post r k v r' → capacity r' = capacity r.
Proof.
  intros Hp. unfold capacity. rewrite (vp_pins _ _ _ _ Hp).
  apply length_insert.
Qed.

Lemma victim_post_evictable r k v r' :
  victim_post r k v r' →
  ∀ i, evictable r' i ↔ evictable r i ∧ i ≠ Z.to_nat v.
Proof.
  intros Hp i. unfold evictable.
  rewrite (vp_pins _ _ _ _ Hp), (vp_frame _ _ _ _ Hp), Nat2Z.id.
  destruct (decide (sweep_pos (capacity r) (start_pos r) k = i)) as [<-|Hne].
  - split; [|by intros [_ ?]].
    intros Hl. apply list_lookup_insert_Some in Hl as [(_ & ? & _)|[? _]];
      done.
  - rewrite list_lookup_insert_ne by done.
    split; [intros ?; split; [done | congruence] | by intros [? _]].
Qed.

(** With a budget of two revolutions [Victim] returns, and it returns none
    exactly when no frame is evictable. *)
Lemma Victim_runs fuel r :
  wf r → (2 * capacity r ≤ fuel)%nat →
  ∃ o r', Victim fuel r = Done (o, r') ∧
          (o = None → r' = r ∧ ∀ i, ¬ evictable r i) ∧
          (∀ v, o = Some v → ∃ k, victim_post r k v r').
Proof.
  intros Hwf Hfuel.
  destruct (decide (0 < count_evictable r)%nat) as [Hc|Hc].
  - pose proof Hc as Hev. apply count_evictable_pos in Hev.
    assert (Hpos : (0 < capacity r)%nat).
    { destruct Hev as [e He]. apply evictable_lt in He. lia. }
    destruct (sweep_terminates r Hwf Hpos (2 * capacity r) 0 r Hev)
      as (k & v & r' & _ & Hpost & Hrun);
      [lia | by apply sweep_inv_start |].
    pose proof (vp_bound _ _ _ _ Hpost).
    exists (Some v), r'. split; [|split; [done|]].
    + unfold Victim. rewrite decide_False by (rewrite (wf_size r Hwf); lia).
      by rewrite Hrun by lia.
    + intros ? [= <-]. eauto.
  - exists None, r. split; [|split; [|done]].
    + unfold Victim. by rewrite decide_True by (rewrite (wf_size r Hwf); lia).
    + intros _. split; [done|]. intros i Hi.
      apply Hc, count_evictable_pos. eauto.
Qed.

(** X3. [Pin] and [Unpin] are idempotent: a second call with the same
    index leaves the replacer as the first call left it. *)
Theorem Pin_Unpin_idempotent f r r1 :
  wf r → 0 <= f →
  (Pin f r = Done r1 → Pin f r1 = Done r1) ∧
  (Unpin f r = Done r1 → Unpin f r1 = Done r1).
Proof.
  intros Hwf Hf.
  destruct (decide (f < Z.of_nat (capacity r))) as [Hlt|Hge].
  - split; intros Hrun.
    + destruct (Pin_wf f r Hwf Hf) as (r' & Hrun' & Hwf').
      rewrite Hrun in Hrun'. injection Hrun' as <-.
      pose proof (Pin_capacity _ _ _ Hrun) as Hcap.
      destruct (Pin_in_range f r Hwf) as (b & Hb & Hr); [lia|].
      destruct (Pin_in_range f r1 Hwf') as (b1 & Hb1 & Hr1); [lia|].
      rewrite Hr1. rewrite Hr in Hrun. injection Hrun as <-.
      destruct b; [by rewrite Hb in Hb1; simplify_eq|].
      simpl in Hb1. rewrite list_lookup_insert_eq in Hb1
        by (unfold capacity in *; lia).
      by simplify_eq.
    + destruct (Unpin_wf f r Hwf Hf) as (r' & Hrun' & Hwf').
      rewrite Hrun in Hrun'. injection Hrun' as <-.
      pose proof (Unpin_capacity _ _ _ Hrun) as Hcap.
      destruct (Unpin_in_range f r Hwf) as (b & Hb & Hr); [lia|].
      destruct (Unpin_in_range f r1 Hwf') as (b1 & Hb1 & Hr1); [lia|].
      rewrite Hr1. rewrite Hr in Hrun. injection Hrun as <-.
      simpl in *. rewrite list_lookup_insert_eq in Hb1
        by (unfold capacity in *; lia).
      simplify_eq. by rewrite !list_insert_insert_eq, Z.add_0_r.
  - split; intros Hrun.
    + rewrite Pin_above_capacity in Hrun by (done || lia).
      injection Hrun as <-. apply Pin_above_capacity; [done | lia].
    + rewrite Unpin_above_capacity in Hrun by (done || lia).
      injection Hrun as <-. apply Unpin_above_capacity; [done | lia].
Qed.

Lemma Pin_Unpin_idempotent_witness :
  wf example ∧ 0 <= 1 ∧
  (Pin 1 example = Done (mk [true; true; false] [false; true; false] 1 1) →
   Pin 1 (mk [true; true; false] [false; true; false] 1 1)
   = Done (mk [true; true; false] [false; true; false] 1 1)) ∧
  (Unpin 0 example = Done (mk [false; false; false] [true; true; false] 1 3) →
   Unpin 0 (mk [false; false; false] [true; true; false] 1 3)
   = Done (mk [false; false; false] [true; true; false] 1 3)).
Proof.
  split; [apply example_wf|]. split; [lia|]. split.
  - apply (proj1 (Pin_Unpin_idempotent 1 example _ example_wf
                    ltac:(lia))).
  - apply (proj2 (Pin_Unpin_idempotent 0 example _ example_wf
                    ltac:(lia))).
Defined.

(** X4. An index at or above the capacity is ignored by [Pin] and by
    [Unpin]: the call returns and the replacer is as it was. *)
Theorem Pin_Unpin_above_capacity_ignored f r :
  wf r → Z.of_nat (capacity r) <= f →
  Pin f r = Done r ∧ Unpin f r = Done r.
Proof.
  intros Hwf Hf. split.
  - by apply Pin_above_capacity.
  - by apply Unpin_above_capacity.
Qed.

Lemma Pin_Unpin_above_capacity_ignored_witness :
  wf example ∧ Z.of_nat (capacity example) <= 3 ∧
  Pin 3 example = Done example ∧ Unpin 3 example = Done example.
Proof.
  split; [apply example_wf|]. split; [vm_compute; done|].
  apply (Pin_Unpin_above_capacity_ignored 3 example);
    [apply example_wf | vm_compute; done].
Defined.

Lemma run_op_wf fuel o r :
  wf r → (2 * capacity r ≤ fuel)%nat → op_index_ok o →
  ∃ r', run_op fuel o r = Done r' ∧ wf r' ∧ capacity r' = capacity r.
Proof.
  intros Hwf Hfuel Hok. destruct o as [f|f|]; simpl in *.
  - destruct (Pin_wf f r Hwf Hok) as (r' & Hrun & Hwf').
    exists r'. split; [done|]. split; [done|]. by apply (Pin_capacity f).
  - destruct (Unpin_wf f r Hwf Hok) as (r' & Hrun & Hwf').
    exists r'. split; [done|]. split; [done|]. by apply (Unpin_capacity f).
  - destruct (Victim_runs fuel r Hwf Hfuel) as (o & r' & Hrun & Hnone & Hsome).
    exists r'. rewrite Hrun. simpl. split; [done|].
    destruct o as [v|].
    + destruct (Hsome v eq_refl) as [k Hpost]. split.
      * by apply (victim_post_wf r k v).
      * by apply (victim_post_capacity r k v).
    + destruct (Hnone eq_refl) as [-> _]. done.
Qed.

(** X5. From the constructor, any sequence of [Pin], [Unpin] and [Victim]
    calls with indices that are not negative runs to its end - no access
    outside the vectors, and two revolutions of budget are enough for every
    [Victim] - and afterwards [Size] is the number of evictable frames. *)
Theorem run_ops_Size (n fuel : nat) (ops : list op) :
  Z.of_nat n < 2 ^ 31 → (2 * n ≤ fuel)%nat → Forall op_index_ok ops →
  ∃ r',
    run_ops fuel ops (new n) = Done r' ∧
    wf r' ∧ capacity r' = n ∧
    Size r' = Z.of_nat (count_evictable r').
Proof.
  intros Hn Hfuel Hops.
  assert (Hgen : ∀ r, wf r → capacity r = n →
    ∃ r', run_ops fuel ops r = Done r' ∧ wf r' ∧ capacity r' = n).
  { induction Hops as [|o ops Ho Hops IH]; intros r Hwf Hcap.
    - exists r. split; [done|]. by split.
    - destruct (run_op_wf fuel o r Hwf) as (r1 & Hrun & Hwf1 & Hcap1);
        [lia | done |].
      destruct (IH r1 Hwf1) as (r' & Hrun' & Hwf' & Hcap'); [lia|].
      exists r'. simpl. rewrite Hrun. simpl. split; [done|]. by split. }
  destruct (Hgen (new n)) as (r' & Hrun & Hwf' & Hcap').
  - by apply new_wf.
  - unfold capacity. simpl. apply length_replicate.
  - exists r'. split; [done|]. split; [done|]. split; [done|].
    by apply Size_wf.
Qed.

Lemma run_ops_Size_witness :
  Z.of_nat 3 < 2 ^ 31 ∧ (2 * 3 ≤ 6)%nat ∧
  Forall op_index_ok [OpUnpin 1; OpUnpin 2; OpVictim; OpPin 2; OpVictim] ∧
  ∃ r',
    run_ops 6 [OpUnpin 1; OpUnpin 2; OpVictim; OpPin 2; OpVictim] (new 3)
    = Done r' ∧
    wf r' ∧ capacity r' = 3%nat ∧
    Size r' = Z.of_nat (count_evictable r').
Proof.
  split; [lia|]. split; [lia|].
  assert (Hok :
    Forall op_index_ok [OpUnpin 1; OpUnpin 2; OpVictim; OpPin 2; OpVictim]).
  { repeat constructor; simpl; lia. }
  split; [exact Hok|].
  apply (run_ops_Size 3 6); [lia | lia | exact Hok].
Defined.

(** X6. [Victim] never returns a frame that is not a candidate: whatever
    frame it returns was evictable before the call and is not after it, the
    status of every other frame is as before, and [Size] has dropped by
    one. *)
Theorem Victim_sound fuel r v r' :
  wf r → Victim fuel r = Done (Some v, r') →
  0 <= v < Z.of_nat (capacity r) ∧
  evictable r (Z.to_nat v) ∧
  (∀ i, evictable r' i ↔ evictable r i ∧ i ≠ Z.to_nat v) ∧
  Size r' = Size r - 1.
Proof.
  intros Hwf Hrun.
  destruct (Victim_Some_post _ _ _ _ Hwf Hrun) as [k Hpost].
  pose proof (victim_post_wf _ _ _ _ Hwf Hpost) as Hwf'.
  pose proof (vp_evictable _ _ _ _ Hpost) as Hev.
  pose proof (evictable_lt _ _ Hev) as Hlt.
  pose proof (vp_frame _ _ _ _ Hpost) as Hv.
  split; [lia|]. split; [by rewrite Hv, Nat2Z.id|].
  split; [by apply (victim_post_evictable r k)|].
  rewrite (Size_wf r Hwf), (Size_wf r' Hwf').
  rewrite <- (wf_size r Hwf), <- (wf_size r' Hwf').
  apply (vp_size _ _ _ _ Hpost).
Qed.

Lemma Victim_sound_witness :
  wf example ∧
  Victim 2 example
  = Done (Some 2, mk [true; false; true] [false; false; false] 3 1) ∧
  0 <= 2 < Z.of_nat (capacity example) ∧
  evictable example (Z.to_nat 2) ∧
  (∀ i, evictable (mk [true; false; true] [false; false; false] 3 1) i
        ↔ evictable example i ∧ i ≠ Z.to_nat 2) ∧
  Size (mk [true; false; true] [false; false; false] 3 1) = Size example - 1.
Proof.
  split; [apply example_wf|]. split; [reflexivity|].
  apply (Victim_sound 2 example 2 _ example_wf). reflexivity.
Defined.

(** X7. Second chance: while some evictable frame has its reference bit
    clear, the frame [Victim] returns is one whose reference bit was clear
    before the call - a frame whose bit is set is not evicted in that
    call. *)
Theorem Victim_second_chance fuel r e v r' :
  wf r →
  evictable r e → access_states r !! e = Some false →
  Victim fuel r = Done (Some v, r') →
  access_states r !! Z.to_nat v = Some false.
Proof.
  intros Hwf He Hae Hrun.
  destruct (Victim_Some_post _ _ _ _ Hwf Hrun) as [k Hpost].
  pose proof (evictable_lt _ _ He) as Hlt.
  rewrite (vp_frame _ _ _ _ Hpost), Nat2Z.id.
  destruct (vp_ref _ _ _ _ Hpost) as [Hclear|Hk]; [done|exfalso].
  destruct (sweep_pos_reaches (capacity r) (start_pos r) e)
    as (je & Hje & Hpe); [apply start_pos_lt; [done|lia] | done |].
  destruct (vp_first _ _ _ _ Hpost je) as [Hp|[_ Hp]]; [lia | |].
  - rewrite Hpe in Hp. unfold evictable in He. congruence.
  - rewrite Hpe in Hp. congruence.
Qed.

Lemma Victim_second_chance_witness :
  wf example ∧
  evictable example 2 ∧ access_states example !! 2%nat = Some false ∧
  Victim 2 example
  = Done (Some 2, mk [true; false; true] [false; false; false] 3 1) ∧
  access_states example !! Z.to_nat 2 = Some false.
Proof.
  split; [apply example_wf|]. split; [reflexivity|].
  split; [reflexivity|]. split; [reflexivity|].
  apply (Victim_second_chance 2 example 2 2
           (mk [true; false; true] [false; false; false] 3 1) example_wf);
    reflexivity.
Defined.

(** X8. [Victim] called until it returns none hands out every evictable
    frame exactly once: the frames returned are pairwise distinct, they are
    the frames that were evictable at the start, and afterwards no frame is
    evictable and [Size] is 0. *)
Theorem drain_all fuel r :
  wf r → (2 * capacity r ≤ fuel)%nat →
  ∃ vs r',
    drain fuel (S (count_evictable r)) r = Done (vs, r') ∧
    length vs = count_evictable r ∧
    NoDup vs ∧
    (∀ v, v ∈ vs ↔ 0 <= v ∧ evictable r (Z.to_nat v)) ∧
    (∀ i, ¬ evictable r' i) ∧
    Size r' = 0.
Proof.
  remember (count_evictable r) as c eqn:Hc.
  revert r Hc. induction c as [|c IH]; intros r Hc Hwf Hfuel.
  - destruct (Victim_runs fuel r Hwf Hfuel) as (o & r' & Hrun & Hnone & Hsome).
    destruct o as [v|].
    { destruct (Hsome v eq_refl) as [k Hpost].
      pose proof (vp_evictable _ _ _ _ Hpost) as Hev.
      assert (0 < count_evictable r)%nat
        by (apply count_evictable_pos; eauto). lia. }
    destruct (Hnone eq_refl) as [-> Hno].
    exists [], r. simpl. rewrite Hrun. simpl.
    split; [done|]. split; [done|]. split; [constructor|].
    split; [|split; [done|]].
    + intros v. split; [by intros ?%not_elem_of_nil|].
      intros [_ Hev]. by destruct (Hno _ Hev).
    + rewrite (Size_wf r Hwf). lia.
  - destruct (Victim_runs fuel r Hwf Hfuel) as (o & r1 & Hrun & Hnone & Hsome).
    destruct o as [v|].
    2:{ destruct (Hnone eq_refl) as [_ Hno].
        assert (Hex : ∃ i, evictable r i)
          by (apply count_evictable_pos; lia).
        destruct Hex as [i Hi]. by destruct (Hno i). }
    destruct (Hsome v eq_refl) as [k Hpost].
    pose proof (victim_post_wf _ _ _ _ Hwf Hpost) as Hwf1.
    pose proof (victim_post_capacity _ _ _ _ Hpost) as Hcap1.
    pose proof (victim_post_evictable _ _ _ _ Hpost) as Hev1.
    pose proof (vp_evictable _ _ _ _ Hpost) as Hev.
    pose proof (vp_frame _ _ _ _ Hpost) as Hv.
    assert (Hc1 : c = count_evictable r1).
    { pose proof (vp_size _ _ _ _ Hpost) as Hsz.
      rewrite (wf_size r Hwf), (wf_size r1 Hwf1) in Hsz. lia. }
    destruct (IH r1 Hc1 Hwf1) as
      (vs & r' & Hdrain & Hlen & Hnd & Hmem & Hno & Hsz); [lia|].
    exists (v :: vs), r'.
    split; [|split; [|split; [|split; [|done]]]].
    + change (drain fuel (S (S c)) r)
        with ('(o, r1) ← Victim fuel r;
              match o with
              | None => mret ([], r1)
              | Some v => '(vs, r2) ← drain fuel (S c) r1; mret (v :: vs, r2)
              end).
      rewrite Hrun. cbn -[drain]. by rewrite Hdrain.
    + simpl. lia.
    + constructor; [|done]. intros Hin. apply Hmem in Hin as [_ Hin].
      apply Hev1 in Hin as [_ Hne]. done.
    + intros w. rewrite elem_of_cons, Hmem. split.
      * intros [->|[Hw Hin]].
        -- split; [lia|]. by rewrite Hv, Nat2Z.id.
        -- split; [done|]. by apply Hev1 in Hin as [? _].
      * intros [Hw Hin].
        destruct (decide (w = v)) as [->|Hne]; [by left|right].
        split; [done|]. apply Hev1. split; [done|]. lia.
Qed.

Lemma drain_all_witness :
  wf example ∧ (2 * capacity example ≤ 6)%nat ∧
  ∃ vs r',
    drain 6 (S (count_evictable example)) example = Done (vs, r') ∧
    length vs = count_evictable example ∧
    NoDup vs ∧
    (∀ v, v ∈ vs ↔ 0 <= v ∧ evictable example (Z.to_nat v)) ∧
    (∀ i, ¬ evictable r' i) ∧
    Size r' = 0.
Proof.
  split; [apply example_wf|]. split; [vm_compute; lia|].
  apply (drain_all 6 example); [apply example_wf | vm_compute; lia].
Defined.

End ClockReplacerMore.

(** ** More on the buffer pool manager *)

Module BufferPoolManagerMore.
Import BufferPoolManager BufferPoolManagerFacts.

Lemma getPageByFrameId_nonneg f bp pg :
  getPageByFrameId f bp = Done pg → 0 <= f ∧ pages_ bp !! Z.to_nat f = Some pg.
Proof. unfold getPageByFrameId. apply vec_at_Done. Qed.

Lemma getPageByFrameId_store f pg0 pg bp :
  getPageByFrameId f bp = Done pg0 →
  getPageByFrameId f (store_page f pg bp) = Done pg.
Proof.
  intros [Hf Hl]%getPageByFrameId_nonneg.
  unfold getPageByFrameId, store_page, vec_set. simpl.
  apply vec_at_lookup; [done|].
  apply list_lookup_insert_eq. by apply lookup_lt_Some in Hl.
Qed.

(** X9. A page that is not resident: [UnpinPageImpl] and [FlushPageImpl]
    return [false], [DeletePageImpl] returns [true], and none of them
    changes the pool or calls the disk manager. *)
Theorem absent_page_untouched page_id is_dirty bp :
  getFrameId page_id bp = None →
  UnpinPageImpl page_id is_dirty bp = Done (false, bp) ∧
  FlushPageImpl page_id bp = Done (false, bp) ∧
  DeletePageImpl page_id bp = Done (true, bp).
Proof.
  intros Habs. unfold UnpinPageImpl, FlushPageImpl, DeletePageImpl.
  by rewrite Habs.
Qed.

Lemma absent_page_untouched_witness :
  getFrameId 9 pool_dirty = None ∧
  UnpinPageImpl 9 true pool_dirty = Done (false, pool_dirty) ∧
  FlushPageImpl 9 pool_dirty = Done (false, pool_dirty) ∧
  DeletePageImpl 9 pool_dirty = Done (true, pool_dirty).
Proof.
  split; [reflexivity|].
  apply (absent_page_untouched 9 true pool_dirty). reflexivity.
Defined.

(** X10. [DeletePageImpl] on a page somebody holds (pin count not zero)
    returns [false] and changes nothing: the page stays resident, its
    frame stays off the free list, its payload is kept. *)
Theorem DeletePageImpl_pinned_refused page_id f pg bp :
  resident bp page_id f →
  getPageByFrameId f bp = Done pg →
  pin_count_ pg ≠ 0 →
  DeletePageImpl page_id bp = Done (false, bp).
Proof.
  unfold resident, DeletePageImpl, getFrameId. intros -> -> Hpin. simpl.
  by rewrite decide_True.
Qed.

Lemma DeletePageImpl_pinned_refused_witness :
  resident pool_fetched 5 0 ∧
  getPageByFrameId 0 pool_fetched = Done (mkPage [x01; x02] 5 1 false) ∧
  pin_count_ (mkPage [x01; x02] 5 1 false) ≠ 0 ∧
  DeletePageImpl 5 pool_fetched = Done (false, pool_fetched).
Proof.
  split; [reflexivity|]. split; [reflexivity|]. split; [simpl; lia|].
  apply (DeletePageImpl_pinned_refused 5 0 (mkPage [x01; x02] 5 1 false));
    [reflexivity | reflexivity | simpl; lia].
Defined.

(** X11. A successful [UnpinPageImpl] (resident page, positive pin count):
    the pin count drops by one, the caller's flag is or-ed into the dirty
    flag - so a dirty page stays dirty - and the replacer is told to unpin
    the frame whatever the count that remains: the frame is evictable
    afterwards with its reference bit set.  Page table, free list and disk
    manager are not touched. *)
Theorem UnpinPageImpl_success page_id is_dirty f pg bp :
  resident bp page_id f →
  getPageByFrameId f bp = Done pg →
  0 < pin_count_ pg →
  ClockReplacer.wf (replacer_ bp) →
  f < Z.of_nat (ClockReplacer.capacity (replacer_ bp)) →
  ∃ bp',
    UnpinPageImpl page_id is_dirty bp = Done (true, bp') ∧
    getPageByFrameId f bp'
    = Done (mkPage (data_ pg) (page_id_ pg) (pin_count_ pg - 1)
              (is_dirty_ pg || is_dirty)) ∧
    ClockReplacer.evictable (replacer_ bp') (Z.to_nat f) ∧
    ClockReplacer.access_states (replacer_ bp') !! Z.to_nat f = Some true ∧
    page_table_ bp' = page_table_ bp ∧
    free_list_ bp' = free_list_ bp ∧
    disk_manager_ bp' = disk_manager_ bp.
Proof.
  intros Hres Hpg Hpin Hwf Hf.
  pose proof (getPageByFrameId_nonneg _ _ _ Hpg) as [Hf0 _].
  destruct (ClockReplacerMore.Unpin_in_range f (replacer_ bp) Hwf)
    as (b & Hb & Hun); [lia|].
  unfold resident in Hres. unfold UnpinPageImpl, getFrameId.
  rewrite Hres, Hpg. simpl. rewrite decide_False by lia. simpl.
  rewrite Hun. simpl. eexists. split; [done|]. simpl.
  pose proof (ClockReplacer.wf_len _ Hwf) as Hlen.
  unfold ClockReplacer.capacity in *.
  split; [|split; [|split; [|done]]].
  - change (getPageByFrameId f
              (store_page f
                 (mkPage (data_ pg) (page_id_ pg) (pin_count_ pg - 1)
                    (is_dirty_ pg || is_dirty)) bp)
            = Done (mkPage (data_ pg) (page_id_ pg) (pin_count_ pg - 1)
                      (is_dirty_ pg || is_dirty))).
    by apply (getPageByFrameId_store f pg).
  - unfold ClockReplacer.evictable. simpl.
    apply list_lookup_insert_eq. lia.
  - apply list_lookup_insert_eq. lia.
Qed.

Lemma pool_fetched_replacer_wf : ClockReplacer.wf (replacer_ pool_fetched).
Proof. split; vm_compute; done. Qed.

Lemma UnpinPageImpl_success_witness :
  resident pool_fetched 5 0 ∧
  getPageByFrameId 0 pool_fetched = Done (mkPage [x01; x02] 5 1 false) ∧
  0 < pin_count_ (mkPage [x01; x02] 5 1 false) ∧
  ClockReplacer.wf (replacer_ pool_fetched) ∧
  0 < Z.of_nat (ClockReplacer.capacity (replacer_ pool_fetched)) ∧
  ∃ bp',
    UnpinPageImpl 5 true pool_fetched = Done (true, bp') ∧
    getPageByFrameId 0 bp' = Done (mkPage [x01; x02] 5 (1 - 1) (false || true)) ∧
    ClockReplacer.evictable (replacer_ bp') (Z.to_nat 0) ∧
    ClockReplacer.access_states (replacer_ bp') !! Z.to_nat 0 = Some true ∧
    page_table_ bp' = page_table_ pool_fetched ∧
    free_list_ bp' = free_list_ pool_fetched ∧
    disk_manager_ bp' = disk_manager_ pool_fetched.
Proof.
  split; [reflexivity|]. split; [reflexivity|]. split; [simpl; lia|].
  split; [apply pool_fetched_replacer_wf|]. split; [vm_compute; done|].
  apply (UnpinPageImpl_success 5 true 0 (mkPage [x01; x02] 5 1 false)
           pool_fetched);
    [reflexivity | reflexivity | simpl; lia | apply pool_fetched_replacer_wf
    | vm_compute; done].
Defined.

Lemma Page_eta pg :
  mkPage (data_ pg) (page_id_ pg) (pin_count_ pg) (is_dirty_ pg) = pg.
Proof. by destruct pg. Qed.

(** X12. [FlushPageImpl] on a resident page, pinned or not: afterwards the
    frame is clean with its payload, identifier and pin count as before;
    if it was dirty the disk manager now stores that payload under the
    identifier, if it was clean nothing changed at all; and a second
    [FlushPageImpl] changes nothing, so it makes no further disk call. *)
Theorem FlushPageImpl_twice page_id f pg bp :
  resident bp page_id f →
  getPageByFrameId f bp = Done pg →
  ∃ bp1,
    FlushPageImpl page_id bp = Done (false, bp1) ∧
    FlushPageImpl page_id bp1 = Done (false, bp1) ∧
    getPageByFrameId f bp1
    = Done (mkPage (data_ pg) (page_id_ pg) (pin_count_ pg) false) ∧
    (is_dirty_ pg = true →
     DiskManager.contents (disk_manager_ bp1) !! page_id
     = Some (data_ pg)) ∧
    (is_dirty_ pg = false → bp1 = bp) ∧
    page_table_ bp1 = page_table_ bp ∧
    free_list_ bp1 = free_list_ bp ∧
    replacer_ bp1 = replacer_ bp.
Proof.
  intros Hres Hpg. destruct (is_dirty_ pg) eqn:Hd.
  - eexists. split; [by apply (FlushPageImpl_dirty page_id f pg)|].
    assert (Hpg1 :
      getPageByFrameId f
        (set_disk_manager
           (DiskManager.WritePage page_id (data_ pg) (disk_manager_ bp))
           (store_page f
              (mkPage (data_ pg) (page_id_ pg) (pin_count_ pg) false) bp))
      = Done (mkPage (data_ pg) (page_id_ pg) (pin_count_ pg) false)).
    { by apply (getPageByFrameId_store f pg). }
    split; [|split; [done|]].
    + by apply (FlushPageImpl_clean page_id f
                  (mkPage (data_ pg) (page_id_ pg) (pin_count_ pg) false)).
    + split; [|done]. intros _. simpl. apply lookup_insert_eq.
  - exists bp.
    split; [by apply (FlushPageImpl_clean page_id f pg)|].
    split; [by apply (FlushPageImpl_clean page_id f pg)|].
    split; [by rewrite <- Hd, Page_eta|]. done.
Qed.

Lemma FlushPageImpl_twice_witness :
  resident pool_dirty 5 0 ∧
  getPageByFrameId 0 pool_dirty = Done (mkPage [x01; x02] 5 0 true) ∧
  ∃ bp1,
    FlushPageImpl 5 pool_dirty = Done (false, bp1) ∧
    FlushPageImpl 5 bp1 = Done (false, bp1) ∧
    getPageByFrameId 0 bp1 = Done (mkPage [x01; x02] 5 0 false) ∧
    (true = true →
     DiskManager.contents (disk_manager_ bp1) !! 5 = Some [x01; x02]) ∧
    (true = false → bp1 = pool_dirty) ∧
    page_table_ bp1 = page_table_ pool_dirty ∧
    free_list_ bp1 = free_list_ pool_dirty ∧
    replacer_ bp1 = replacer_ pool_dirty.
Proof.
  split; [reflexivity|]. split; [reflexivity|].
  apply (FlushPageImpl_twice 5 0 (mkPage [x01; x02] 5 0 true) pool_dirty);
    reflexivity.
Defined.

Lemma flush_each_clean (l : list (Z * Z)) bp :
  table_ok bp →
  (∀ p f, (p, f) ∈ l → resident bp p f) →
  (∀ p, p ∈ l.*1 → page_dirty bp p = false) →
  flush_each l bp = Done bp.
Proof.
  intros Hok. induction l as [|[p f] l IH]; intros Hres Hclean; [done|].
  assert (Hp : resident bp p f) by (apply Hres; left).
  pose proof (table_range bp Hok p f Hp) as Hf.
  destruct (lookup_lt_is_Some_2 (pages_ bp) (Z.to_nat f)) as [pg Hpg];
    [lia|].
  assert (Hget : getPageByFrameId f bp = Done pg)
    by (apply vec_at_lookup; [lia | done]).
  assert (Hd : is_dirty_ pg = false).
  { specialize (Hclean p). rewrite fmap_cons in Hclean.
    specialize (Hclean ltac:(left)).
    unfold page_dirty, getFrameId in Hclean. unfold resident in Hp.
    by rewrite Hp, Hget in Hclean. }
  simpl. rewrite (FlushPageImpl_clean p f pg) by done. simpl.
  apply IH.
  - intros q g Hq. apply Hres. by right.
  - intros q Hq. apply Hclean. rewrite fmap_cons. by right.
Qed.

(** X13. [FlushAllPagesImpl] run a second time changes nothing: after one
    run, whatever the orders of the two iterations over the page table, a
    second run returns the pool it was given, with no disk call. *)
Theorem FlushAllPagesImpl_twice order order' bp bp' :
  table_ok bp →
  iteration_order order bp →
  iteration_order order' bp →
  FlushAllPagesImpl_in order bp = Done bp' →
  FlushAllPagesImpl_in order' bp' = Done bp'.
Proof.
  intros Hok Hord Hord' Hrun. unfold iteration_order in *.
  destruct (flush_each_spec order bp Hok) as
    (bp1 & ws & Hrun1 & Hpt & Hlen & Hclean & _).
  { rewrite Hord. apply NoDup_fst_map_to_list. }
  { intros p f Hin. rewrite Hord in Hin. by apply elem_of_map_to_list in Hin. }
  unfold FlushAllPagesImpl_in in *. rewrite Hrun1 in Hrun.
  injection Hrun as ->.
  apply flush_each_clean.
  - by apply (table_ok_transfer bp).
  - intros p f Hin. rewrite Hord' in Hin.
    apply elem_of_map_to_list in Hin. unfold resident. by rewrite Hpt.
  - intros p Hin. apply Hclean. by rewrite Hord, <- Hord'.
Qed.

Lemma FlushAllPagesImpl_twice_witness :
  table_ok pool_dirty ∧
  iteration_order [(5, 0)] pool_dirty ∧
  FlushAllPagesImpl_in [(5, 0)] pool_dirty
  = Done (mk [mkPage [x01; x02] 5 0 false; blank; blank] {[5 := 0]} [1; 2]
            (ClockReplacer.mk [false; true; true] [true; false; false] 0 1)
            (DiskManager.mk {[5 := [x01; x02]]} 6
               [DiskManager.CReadPage 5;
                DiskManager.CWritePage 5 [x01; x02]])) ∧
  FlushAllPagesImpl_in [(5, 0)]
    (mk [mkPage [x01; x02] 5 0 false; blank; blank] {[5 := 0]} [1; 2]
       (ClockReplacer.mk [false; true; true] [true; false; false] 0 1)
       (DiskManager.mk {[5 := [x01; x02]]} 6
          [DiskManager.CReadPage 5; DiskManager.CWritePage 5 [x01; x02]]))
  = Done (mk [mkPage [x01; x02] 5 0 false; blank; blank] {[5 := 0]} [1; 2]
            (ClockReplacer.mk [false; true; true] [true; false; false] 0 1)
            (DiskManager.mk {[5 := [x01; x02]]} 6
               [DiskManager.CReadPage 5;
                DiskManager.CWritePage 5 [x01; x02]])).
Proof.
  split; [apply pool_dirty_table_ok|]. split; [apply pool_dirty_order|].
  split; [reflexivity|].
  apply (FlushAllPagesImpl_twice [(5, 0)] [(5, 0)] pool_dirty);
    [apply pool_dirty_table_ok | apply pool_dirty_order
    | apply pool_dirty_order | reflexivity].
Defined.

(** *** What the choice of a frame leaves alone *)

Lemma pickVictimPage_keeps fuel bp f bp1 :
  pickVictimPage fuel bp = Done (f, bp1) →
  pages_ bp1 = pages_ bp ∧
  (∀ q, page_table_ bp !! q = None → page_table_ bp1 !! q = None) ∧
  DiskManager.next_page_id (disk_manager_ bp1)
  = DiskManager.next_page_id (disk_manager_ bp) ∧
  (ClockReplacer.wf (replacer_ bp) → ClockReplacer.wf (replacer_ bp1)).
Proof.
  unfold pickVictimPage. destruct (free_list_ bp) as [|g rest].
  - destruct (ClockReplacer.Victim fuel (replacer_ bp)) as [[o r]| |] eqn:Hv;
      simpl; try done.
    assert (Hwf' : ClockReplacer.wf (replacer_ bp) → ClockReplacer.wf r).
    { intros Hwf. by apply (ClockReplacerFacts.Victim_wf _ _ _ _ Hwf Hv). }
    destruct o as [v|].
    + rewrite getPageByFrameId_set_replacer.
      destruct (getPageByFrameId v bp) as [pg| |]; simpl; try done.
      intros [= <- <-].
      split; [by destruct (is_dirty_ pg)|].
      split; [|split; [by destruct (is_dirty_ pg) | by destruct (is_dirty_ pg)]].
      intros q Hq. destruct (is_dirty_ pg); simpl;
        apply lookup_delete_None; by right.
    + intros [= <- <-]. simpl. split; [done|]. split; [done|]. by split.
  - intros [= <- <-]. simpl. split; [done|]. split; [done|]. by split.
Qed.

Lemma elem_of_vec_set (l : list Page) f pg pg' :
  pg' ∈ vec_set l f pg → pg' = pg ∨ pg' ∈ l.
Proof.
  unfold vec_set. intros [i Hi]%list_elem_of_lookup.
  apply list_lookup_insert_Some in Hi as [(_ & -> & _)|[_ Hi]].
  - by left.
  - right. apply list_elem_of_lookup. eauto.
Qed.

Lemma pins_nonneg_store f pg bp :
  pins_nonneg bp → 0 <= pin_count_ pg → pins_nonneg (store_page f pg bp).
Proof.
  intros Hnn Hpg pg' Hin. simpl in Hin.
  apply elem_of_vec_set in Hin as [->|Hin]; [done|]. by apply Hnn.
Qed.

Lemma pins_nonneg_pages bp bp' :
  pages_ bp' = pages_ bp → pins_nonneg bp → pins_nonneg bp'.
Proof. unfold pins_nonneg. by intros ->. Qed.

Lemma pins_nonneg_lookup f pg bp :
  pins_nonneg bp → getPageByFrameId f bp = Done pg → 0 <= pin_count_ pg.
Proof.
  intros Hnn [_ Hl]%getPageByFrameId_nonneg. apply Hnn.
  apply list_elem_of_lookup. eauto.
Qed.

Lemma FetchPageImpl_pins_nonneg fuel p h bp bp' :
  pins_nonneg bp → FetchPageImpl fuel p bp = Done (h, bp') → pins_nonneg bp'.
Proof.
  intros Hnn. unfold FetchPageImpl.
  destruct (getFrameId p bp) as [f|].
  - destruct (ClockReplacer.Pin f (replacer_ bp)) as [r| |]; simpl; try done.
    destruct (getPageByFrameId f bp); simpl; try done.
    intros [= <- <-]. by apply (pins_nonneg_pages bp).
  - destruct (pickVictimPage fuel bp) as [[f bp1]| |] eqn:Hpick; simpl;
      try done.
    destruct (pickVictimPage_keeps _ _ _ _ Hpick) as (Hpages & _).
    case_decide; [intros [= <- <-]; by apply (pins_nonneg_pages bp)|].
    destruct (getPageByFrameId f bp1) as [pg| |]; simpl; try done.
    destruct (ClockReplacer.Pin f _) as [r| |]; simpl; try done.
    intros [= <- <-]. intros pg' Hin. simpl in Hin.
    apply elem_of_vec_set in Hin as [->|Hin]; [simpl; lia|].
    apply Hnn. by rewrite <- Hpages.
Qed.

Lemma UnpinPageImpl_pins_nonneg p d b bp bp' :
  pins_nonneg bp → UnpinPageImpl p d bp = Done (b, bp') → pins_nonneg bp'.
Proof.
  intros Hnn. unfold UnpinPageImpl.
  destruct (getFrameId p bp) as [f|]; [|by intros [= <- <-]].
  destruct (getPageByFrameId f bp) as [pg| |]; simpl; try done.
  case_decide; [by intros [= <- <-]|].
  destruct (ClockReplacer.Unpin f _) as [r| |]; simpl; try done.
  intros [= <- <-]. intros pg' Hin. simpl in Hin.
  apply elem_of_vec_set in Hin as [->|Hin]; [simpl; lia|]. by apply Hnn.
Qed.

Lemma FlushPageImpl_pins_nonneg p b bp bp' :
  pins_nonneg bp → FlushPageImpl p bp = Done (b, bp') → pins_nonneg bp'.
Proof.
  intros Hnn. unfold FlushPageImpl.
  destruct (getFrameId p bp) as [f|]; [|by intros [= <- <-]].
  destruct (getPageByFrameId f bp) as [pg| |] eqn:Hpg; simpl; try done.
  destruct (is_dirty_ pg); simpl; [|by intros [= <- <-]].
  intros [= <- <-]. intros pg' Hin. simpl in Hin.
  apply elem_of_vec_set in Hin as [->|Hin]; [|by apply Hnn].
  simpl. by apply (pins_nonneg_lookup f pg bp).
Qed.

Lemma NewPageImpl_pins_nonneg fuel h bp bp' :
  pins_nonneg bp → NewPageImpl fuel bp = Done (h, bp') → pins_nonneg bp'.
Proof.
  intros Hnn. unfold NewPageImpl.
  destruct (isAllPined bp); [by intros [= <- <-]|].
  destruct (pickVictimPage fuel bp) as [[f bp1]| |] eqn:Hpick; simpl;
    try done.
  destruct (pickVictimPage_keeps _ _ _ _ Hpick) as (Hpages & _).
  case_decide; [intros [= <- <-]; by apply (pins_nonneg_pages bp)|].
  destruct (getPageByFrameId f bp1) as [pg| |]; simpl; try done.
  intros [= <- <-]. intros pg' Hin. simpl in Hin.
  apply elem_of_vec_set in Hin as [->|Hin]; [simpl; lia|].
  apply Hnn. by rewrite <- Hpages.
Qed.

Lemma DeletePageImpl_pins_nonneg p b bp bp' :
  pins_nonneg bp → DeletePageImpl p bp = Done (b, bp') → pins_nonneg bp'.
Proof.
  intros Hnn. unfold DeletePageImpl.
  destruct (getFrameId p bp) as [f|]; [|by intros [= <- <-]].
  destruct (getPageByFrameId f bp) as [pg| |] eqn:Hpg; simpl; try done.
  case_decide; [by intros [= <- <-]|].
  intros [= <- <-]. intros pg' Hin. simpl in Hin.
  apply elem_of_vec_set in Hin as [->|Hin]; [|by apply Hnn].
  simpl. by apply (pins_nonneg_lookup f pg bp).
Qed.

Lemma flush_each_pins_nonneg l :
  ∀ bp bp', pins_nonneg bp → flush_each l bp = Done bp' → pins_nonneg bp'.
Proof.
  induction l as [|[p f] l IH]; intros bp bp' Hnn; simpl.
  - by intros [= <-].
  - destruct (FlushPageImpl p bp) as [[b bp1]| |] eqn:Hfl; simpl; try done.
    apply IH. by apply (FlushPageImpl_pins_nonneg p b bp).
Qed.

(** X14. No pin count ever goes negative: if no frame of the pool has a
    negative pin count, none has after [FetchPageImpl], [UnpinPageImpl],
    [FlushPageImpl], [NewPageImpl], [DeletePageImpl] or
    [FlushAllPagesImpl], whatever their arguments and results. *)
Theorem pins_nonneg_kept fuel bp :
  pins_nonneg bp →
  (∀ p h bp', FetchPageImpl fuel p bp = Done (h, bp') → pins_nonneg bp') ∧
  (∀ p d b bp', UnpinPageImpl p d bp = Done (b, bp') → pins_nonneg bp') ∧
  (∀ p b bp', FlushPageImpl p bp = Done (b, bp') → pins_nonneg bp') ∧
  (∀ h bp', NewPageImpl fuel bp = Done (h, bp') → pins_nonneg bp') ∧
  (∀ p b bp', DeletePageImpl p bp = Done (b, bp') → pins_nonneg bp') ∧
  (∀ order bp', FlushAllPagesImpl_in order bp = Done bp' → pins_nonneg bp').
Proof.
  intros Hnn. repeat split.
  - intros p h bp'. by apply FetchPageImpl_pins_nonneg.
  - intros p d b bp'. by apply UnpinPageImpl_pins_nonneg.
  - intros p b bp'. by apply FlushPageImpl_pins_nonneg.
  - intros h bp'. by apply NewPageImpl_pins_nonneg.
  - intros p b bp'. by apply DeletePageImpl_pins_nonneg.
  - intros order bp'. by apply flush_each_pins_nonneg.
Qed.

Lemma pool_fetched_pins_nonneg : pins_nonneg pool_fetched.
Proof.
  intros pg Hin. simpl in Hin.
  repeat (apply elem_of_cons in Hin as [->|Hin]; [simpl; lia|]).
  by apply not_elem_of_nil in Hin.
Qed.

Lemma pins_nonneg_kept_witness :
  pins_nonneg pool_fetched ∧
  pins_nonneg pool_dirty ∧ pins_nonneg pool_clean.
Proof.
  split; [apply pool_fetched_pins_nonneg|].
  destruct (pins_nonneg_kept 0 pool_fetched pool_fetched_pins_nonneg)
    as (_ & Hunpin & _).
  split.
  - apply (Hunpin 5 true true pool_dirty). reflexivity.
  - apply (Hunpin 5 false true pool_clean). reflexivity.
Defined.

(** *** Fetching *)

Lemma Pin_not_evictable f r r' :
  ClockReplacer.wf r → 0 <= f →
  ClockReplacer.Pin f r = Done r' →
  ¬ ClockReplacer.evictable r' (Z.to_nat f).
Proof.
  intros Hwf Hf Hrun Hev.
  destruct (decide (f < Z.of_nat (ClockReplacer.capacity r))) as [Hlt|Hge].
  - destruct (ClockReplacerMore.Pin_in_range f r Hwf) as (b & Hb & Hr);
      [lia|].
    rewrite Hr in Hrun. injection Hrun as <-.
    unfold ClockReplacer.evictable in Hev. destruct b.
    + congruence.
    + simpl in Hev. rewrite list_lookup_insert_eq in Hev; [done|].
      unfold ClockReplacer.capacity in *. lia.
  - rewrite ClockReplacerFacts.Pin_above_capacity in Hrun by (done || lia).
    injection Hrun as <-.
    apply ClockReplacerFacts.evictable_lt in Hev. lia.
Qed.

(** X15. A hit of [FetchPageImpl] (the page is resident) returns the frame
    the page table gives, makes no disk call and leaves page table, free
    list and every frame as they were; the replacer is told to pin the
    frame, which is not evictable afterwards. *)
Theorem FetchPageImpl_hit_no_io fuel page_id f pg bp :
  resident bp page_id f →
  getPageByFrameId f bp = Done pg →
  ClockReplacer.wf (replacer_ bp) →
  ∃ bp',
    FetchPageImpl fuel page_id bp = Done (Some f, bp') ∧
    disk_manager_ bp' = disk_manager_ bp ∧
    page_table_ bp' = page_table_ bp ∧
    free_list_ bp' = free_list_ bp ∧
    pages_ bp' = pages_ bp ∧
    ClockReplacer.Pin f (replacer_ bp) = Done (replacer_ bp') ∧
    ¬ ClockReplacer.evictable (replacer_ bp') (Z.to_nat f).
Proof.
  intros Hres Hpg Hwf.
  pose proof (getPageByFrameId_nonneg _ _ _ Hpg) as [Hf _].
  destruct (ClockReplacerFacts.Pin_wf f _ Hwf Hf) as (r & Hpin & _).
  exists (set_replacer r bp). unfold resident in Hres.
  unfold FetchPageImpl, getFrameId. rewrite Hres, Hpin. simpl.
  rewrite Hpg. simpl. repeat split; try done.
  by apply (Pin_not_evictable f (replacer_ bp)).
Qed.

Lemma FetchPageImpl_hit_no_io_witness :
  resident pool_clean 5 0 ∧
  getPageByFrameId 0 pool_clean = Done (mkPage [x01; x02] 5 0 false) ∧
  ClockReplacer.wf (replacer_ pool_clean) ∧
  ∃ bp',
    FetchPageImpl 0 5 pool_clean = Done (Some 0, bp') ∧
    disk_manager_ bp' = disk_manager_ pool_clean ∧
    page_table_ bp' = page_table_ pool_clean ∧
    free_list_ bp' = free_list_ pool_clean ∧
    pages_ bp' = pages_ pool_clean ∧
    ClockReplacer.Pin 0 (replacer_ pool_clean) = Done (replacer_ bp') ∧
    ¬ ClockReplacer.evictable (replacer_ bp') (Z.to_nat 0).
Proof.
  assert (Hwf : ClockReplacer.wf (replacer_ pool_clean))
    by (split; vm_compute; done).
  split; [reflexivity|]. split; [reflexivity|]. split; [exact Hwf|].
  apply (FetchPageImpl_hit_no_io 0 5 0 (mkPage [x01; x02] 5 0 false)
           pool_clean); [reflexivity | reflexivity | exact Hwf].
Defined.

(** X16. A miss of [FetchPageImpl] that returns a frame: the page is
    resident in that frame afterwards, the frame carries the page's
    identifier with pin count 1 and a clear dirty flag, its payload is what
    the disk manager stores for the page (zeroes if it stores nothing), the
    last disk call is the read of that page, and the frame is not evictable
    in the replacer. *)
Theorem FetchPageImpl_miss_loads fuel page_id f bp bp' :
  ClockReplacer.wf (replacer_ bp) →
  getFrameId page_id bp = None →
  FetchPageImpl fuel page_id bp = Done (Some f, bp') →
  resident bp' page_id f ∧
  ¬ ClockReplacer.evictable (replacer_ bp') (Z.to_nat f) ∧
  last (DiskManager.calls (disk_manager_ bp'))
  = Some (DiskManager.CReadPage page_id) ∧
  ∃ pg,
    getPageByFrameId f bp' = Done pg ∧
    page_id_ pg = page_id ∧ pin_count_ pg = 1 ∧ is_dirty_ pg = false ∧
    (∀ d, DiskManager.contents (disk_manager_ bp') !! page_id = Some d →
          data_ pg = d) ∧
    (DiskManager.contents (disk_manager_ bp') !! page_id = None →
     Forall (λ b, b = x00) (data_ pg)).
Proof.
  intros Hwf Hmiss. unfold FetchPageImpl. rewrite Hmiss.
  destruct (pickVictimPage fuel bp) as [[g bp1]| |] eqn:Hpick; simpl;
    try done.
  destruct (pickVictimPage_keeps _ _ _ _ Hpick) as (_ & Hpt & _ & Hwf1).
  case_decide; [done|].
  destruct (getPageByFrameId g bp1) as [pg0| |] eqn:Hpg0; simpl; try done.
  destruct (ClockReplacer.Pin g (replacer_ bp1)) as [r| |] eqn:Hpin; simpl;
    try done.
  intros [= <- <-].
  pose proof (getPageByFrameId_nonneg _ _ _ Hpg0) as [Hg Hl].
  simpl. split; [|split; [|split]].
  - unfold resident, table_insert. simpl.
    rewrite (Hpt page_id Hmiss). apply lookup_insert_eq.
  - by apply (Pin_not_evictable g (replacer_ bp1)); [apply Hwf1 | |].
  - apply last_snoc.
  - eexists. split.
    { unfold getPageByFrameId. simpl. apply vec_at_lookup; [done|].
      unfold vec_set. apply list_lookup_insert_eq.
      by apply lookup_lt_Some in Hl. }
    simpl. split; [done|]. split; [done|]. split; [done|]. split.
    + intros d Hd. by rewrite Hd.
    + intros Hd. rewrite Hd. apply Forall_fmap, Forall_true. done.
Qed.

Lemma FetchPageImpl_miss_loads_witness :
  ClockReplacer.wf (replacer_ (new 3 2 disk5)) ∧
  getFrameId 5 (new 3 2 disk5) = None ∧
  FetchPageImpl 0 5 (new 3 2 disk5) = Done (Some 0, pool_fetched) ∧
  resident pool_fetched 5 0 ∧
  ¬ ClockReplacer.evictable (replacer_ pool_fetched) (Z.to_nat 0) ∧
  last (DiskManager.calls (disk_manager_ pool_fetched))
  = Some (DiskManager.CReadPage 5) ∧
  ∃ pg,
    getPageByFrameId 0 pool_fetched = Done pg ∧
    page_id_ pg = 5 ∧ pin_count_ pg = 1 ∧ is_dirty_ pg = false ∧
    (∀ d, DiskManager.contents (disk_manager_ pool_fetched) !! 5 = Some d →
          data_ pg = d) ∧
    (DiskManager.contents (disk_manager_ pool_fetched) !! 5 = None →
     Forall (λ b, b = x00) (data_ pg)).
Proof.
  assert (Hwf : ClockReplacer.wf (replacer_ (new 3 2 disk5)))
    by (split; vm_compute; done).
  split; [exact Hwf|]. split; [reflexivity|]. split; [reflexivity|].
  apply (FetchPageImpl_miss_loads 0 5 0 (new 3 2 disk5) pool_fetched);
    [exact Hwf | reflexivity | reflexivity].
Defined.

(** *** Allocating and deleting *)

(** X17. [NewPageImpl] that returns a frame: the identifier handed out is
    the one the disk manager allocated in this call (its last call), the
    frame carries that identifier with pin count 1, a clear dirty flag and
    a zeroed payload, and - unless the identifier was already in the page
    table - the new page is resident in that frame. *)
Theorem NewPageImpl_success fuel bp f id bp' :
  NewPageImpl fuel bp = Done (Some (f, id), bp') →
  id = DiskManager.next_page_id (disk_manager_ bp) ∧
  DiskManager.next_page_id (disk_manager_ bp') = id + 1 ∧
  last (DiskManager.calls (disk_manager_ bp'))
  = Some (DiskManager.CAllocatePage id) ∧
  (page_table_ bp !! id = None → resident bp' id f) ∧
  ∃ pg,
    getPageByFrameId f bp' = Done pg ∧
    page_id_ pg = id ∧ pin_count_ pg = 1 ∧ is_dirty_ pg = false ∧
    Forall (λ b, b = x00) (data_ pg).
Proof.
  unfold NewPageImpl. destruct (isAllPined bp); [done|].
  destruct (pickVictimPage fuel bp) as [[g bp1]| |] eqn:Hpick; simpl;
    try done.
  destruct (pickVictimPage_keeps _ _ _ _ Hpick) as (_ & Hpt & Hnext & _).
  case_decide; [done|].
  destruct (getPageByFrameId g bp1) as [pg0| |] eqn:Hpg0; simpl; try done.
  intros [= <- <- <-].
  pose proof (getPageByFrameId_nonneg _ _ _ Hpg0) as [Hg Hl].
  simpl. split; [done|]. split; [by rewrite Hnext|].
  split; [apply last_snoc|]. split.
  - intros Hnone. unfold resident, table_insert. simpl.
    rewrite (Hpt _ Hnone). apply lookup_insert_eq.
  - eexists. split.
    { unfold getPageByFrameId. simpl. apply vec_at_lookup; [done|].
      unfold vec_set. apply list_lookup_insert_eq.
      by apply lookup_lt_Some in Hl. }
    simpl. split; [done|]. split; [done|]. split; [done|].
    apply Forall_fmap, Forall_true. done.
Qed.

Lemma NewPageImpl_success_witness :
  ∃ bp',
    NewPageImpl 0 (new 3 2 disk5) = Done (Some (0, 6), bp') ∧
    6 = DiskManager.next_page_id (disk_manager_ (new 3 2 disk5)) ∧
    DiskManager.next_page_id (disk_manager_ bp') = 6 + 1 ∧
    last (DiskManager.calls (disk_manager_ bp'))
    = Some (DiskManager.CAllocatePage 6) ∧
    (page_table_ (new 3 2 disk5) !! 6 = None → resident bp' 6 0) ∧
    ∃ pg,
      getPageByFrameId 0 bp' = Done pg ∧
      page_id_ pg = 6 ∧ pin_count_ pg = 1 ∧ is_dirty_ pg = false ∧
      Forall (λ b, b = x00) (data_ pg).
Proof.
  eexists. split; [reflexivity|].
  apply (NewPageImpl_success 0 (new 3 2 disk5) 0 6). reflexivity.
Defined.

(** X18. [DeletePageImpl] on a resident page nobody holds erases from the
    page table the entry of the identifier the frame carries and no other
    entry, zeroes the payload of the frame and appends the frame at the
    back of the free list. *)
Theorem DeletePageImpl_erases page_id f pg bp :
  resident bp page_id f →
  getPageByFrameId f bp = Done pg →
  pin_count_ pg = 0 →
  ∃ b bp',
    DeletePageImpl page_id bp = Done (b, bp') ∧
    getFrameId (page_id_ pg) bp' = None ∧
    (∀ q, q ≠ page_id_ pg → getFrameId q bp' = getFrameId q bp) ∧
    free_list_ bp' = free_list_ bp ++ [f] ∧
    (∃ pg', getPageByFrameId f bp' = Done pg' ∧
            Forall (λ b, b = x00) (data_ pg') ∧
            length (data_ pg') = length (data_ pg)) ∧
    (∀ g, g ≠ f → getPageByFrameId g bp' = getPageByFrameId g bp).
Proof.
  intros Hres Hpg Hpin.
  pose proof (getPageByFrameId_nonneg _ _ _ Hpg) as [Hf Hl].
  eexists _, _.
  split; [by apply (DeletePageImpl_unpinned page_id f pg)|].
  unfold getFrameId, getPageByFrameId. simpl.
  split; [apply lookup_delete_eq|].
  split; [by intros q Hq; apply lookup_delete_ne|].
  split; [done|]. split.
  - eexists. split.
    { apply vec_at_lookup; [done|]. unfold vec_set.
      apply list_lookup_insert_eq. by apply lookup_lt_Some in Hl. }
    simpl. split; [apply Forall_fmap, Forall_true; done|].
    apply length_map.
  - intros g Hg. unfold vec_at. case_decide; [|done].
    unfold vec_set. rewrite list_lookup_insert_ne by lia. done.
Qed.

Lemma DeletePageImpl_erases_witness :
  resident pool_clean 5 0 ∧
  getPageByFrameId 0 pool_clean = Done (mkPage [x01; x02] 5 0 false) ∧
  pin_count_ (mkPage [x01; x02] 5 0 false) = 0 ∧
  ∃ b bp',
    DeletePageImpl 5 pool_clean = Done (b, bp') ∧
    getFrameId 5 bp' = None ∧
    (∀ q, q ≠ 5 → getFrameId q bp' = getFrameId q pool_clean) ∧
    free_list_ bp' = free_list_ pool_clean ++ [0] ∧
    (∃ pg', getPageByFrameId 0 bp' = Done pg' ∧
            Forall (λ b, b = x00) (data_ pg') ∧
            length (data_ pg') = 2%nat) ∧
    (∀ g, g ≠ 0 → getPageByFrameId g bp' = getPageByFrameId g pool_clean).
Proof.
  split; [reflexivity|]. split; [reflexivity|]. split; [reflexivity|].
  apply (DeletePageImpl_erases 5 0 (mkPage [x01; x02] 5 0 false) pool_clean);
    reflexivity.
Defined.

(** *** The constructor *)

(** X19. A pool of fewer than 2^31 frames is born with every frame on the
    free list, in index order, no page resident, no pin count set, and a
    well-formed replacer without candidates; the disk manager has received
    no call from it. *)
Theorem new_pool_state (pool_size page_size : nat) disk :
  Z.of_nat pool_size < 2 ^ 31 →
  free_list_ (new pool_size page_size disk) = Z.of_nat <$> seq 0 pool_size ∧
  page_table_ (new pool_size page_size disk) = ∅ ∧
  length (pages_ (new pool_size page_size disk)) = pool_size ∧
  table_ok (new pool_size page_size disk) ∧
  pins_nonneg (new pool_size page_size disk) ∧
  ClockReplacer.wf (replacer_ (new pool_size page_size disk)) ∧
  ClockReplacer.Size (replacer_ (new pool_size page_size disk)) = 0 ∧
  disk_manager_ (new pool_size page_size disk) = disk.
Proof.
  intros Hn. simpl.
  assert (Hwf : ClockReplacer.wf (ClockReplacer.new pool_size))
    by (by apply ClockReplacerFacts.new_wf).
  split; [|split; [done|split; [apply length_replicate|]]].
  - apply list_fmap_ext. intros i x Hx.
    apply lookup_seq in Hx as [-> Hi]. apply to_int_small. lia.
  - split; [|split; [|split; [done|split; [done|done]]]].
    + split; unfold resident; simpl; intros *; by rewrite lookup_empty.
    + intros pg Hin. simpl in Hin.
      apply elem_of_replicate_inv in Hin as ->. done.
Qed.

Lemma new_pool_state_witness :
  Z.of_nat 3 < 2 ^ 31 ∧
  free_list_ (new 3 2 disk5) = Z.of_nat <$> seq 0 3 ∧
  page_table_ (new 3 2 disk5) = ∅ ∧
  length (pages_ (new 3 2 disk5)) = 3%nat ∧
  table_ok (new 3 2 disk5) ∧
  pins_nonneg (new 3 2 disk5) ∧
  ClockReplacer.wf (replacer_ (new 3 2 disk5)) ∧
  ClockReplacer.Size (replacer_ (new 3 2 disk5)) = 0 ∧
  disk_manager_ (new 3 2 disk5) = disk5.
Proof.
  split; [lia|]. apply (new_pool_state 3 2 disk5). lia.
Defined.

(** *** A round trip through the disk *)

(** X20. Bytes survive a flush: when a dirty page nobody holds is flushed
    and deleted, and then fetched again, the frame the fetch returns holds
    the payload the page had before the flush, with pin count 1 and a
    clear dirty flag.  The frames on the free list are frames of the pool,
    and the frame carries the identifier it is resident under. *)
Theorem flush_delete_fetch_roundtrip fuel page_id f pg bp :
  resident bp page_id f →
  getPageByFrameId f bp = Done pg →
  page_id_ pg = page_id →
  pin_count_ pg = 0 →
  is_dirty_ pg = true →
  ClockReplacer.wf (replacer_ bp) →
  (∀ g, g ∈ free_list_ bp → 0 <= g < Z.of_nat (length (pages_ bp))) →
  ∃ bp1 bp2 g bp3,
    FlushPageImpl page_id bp = Done (false, bp1) ∧
    DeletePageImpl page_id bp1 = Done (false, bp2) ∧
    FetchPageImpl fuel page_id bp2 = Done (Some g, bp3) ∧
    getPageByFrameId g bp3 = Done (mkPage (data_ pg) page_id 1 false).
Proof.
  intros Hres Hpg Hid Hpin Hdirty Hwf Hfree.
  pose proof (getPageByFrameId_nonneg _ _ _ Hpg) as [Hf Hl].
  pose proof (lookup_lt_Some _ _ _ Hl) as Hflt.
  set (pgc := mkPage (data_ pg) (page_id_ pg) (pin_count_ pg) false).
  set (bp1 := set_disk_manager
                (DiskManager.WritePage page_id (data_ pg) (disk_manager_ bp))
                (store_page f pgc bp)).
  assert (Hflush : FlushPageImpl page_id bp = Done (false, bp1))
    by (by apply (FlushPageImpl_dirty page_id f pg)).
  assert (Hpg1 : getPageByFrameId f bp1 = Done pgc)
    by (by apply (getPageByFrameId_store f pg)).
  set (bp2 := mk (vec_set (pages_ bp1) f (ResetMemory pgc))
                 (delete (page_id_ pgc) (page_table_ bp1))
                 (free_list_ bp1 ++ [f])
                 (replacer_ bp1) (disk_manager_ bp1)).
  assert (Hdelete : DeletePageImpl page_id bp1 = Done (false, bp2))
    by (by apply (DeletePageImpl_unpinned page_id f pgc)).
  assert (Hmiss : getFrameId page_id bp2 = None).
  { unfold getFrameId. simpl. rewrite Hid. apply lookup_delete_eq. }
  assert (Hlen2 : length (pages_ bp2) = length (pages_ bp)).
  { simpl. unfold vec_set. by rewrite !length_insert. }
  assert (Hhead : ∃ g rest,
    free_list_ bp2 = g :: rest ∧ 0 <= g < Z.of_nat (length (pages_ bp))).
  { simpl. destruct (free_list_ bp) as [|g rest] eqn:Hfl.
    - exists f, []. split; [done|]. lia.
    - exists g, (rest ++ [f]). split; [done|]. apply Hfree. left. }
  destruct Hhead as (g & rest & Hfl2 & Hg).
  destruct (lookup_lt_is_Some_2 (pages_ bp2) (Z.to_nat g)) as [pg0 Hpg0];
    [lia|].
  destruct (ClockReplacerFacts.Pin_wf g (replacer_ bp2)) as (r & Hpin' & _);
    [done | lia |].
  simpl in Hpin'.
  exists bp1, bp2, g. eexists.
  split; [done|]. split; [done|]. split.
  - unfold FetchPageImpl. rewrite Hmiss.
    unfold pickVictimPage. rewrite Hfl2. simpl.
    rewrite decide_False by lia.
    unfold getPageByFrameId. simpl.
    rewrite (vec_at_lookup _ _ pg0) by (lia || done). simpl.
    rewrite Hpin'. simpl. rewrite lookup_insert_eq. done.
  - unfold getPageByFrameId. simpl. apply vec_at_lookup; [lia|].
    unfold vec_set. apply list_lookup_insert_eq.
    by apply lookup_lt_Some in Hpg0.
Qed.

Lemma pool_dirty_replacer_wf : ClockReplacer.wf (replacer_ pool_dirty).
Proof. split; vm_compute; done. Qed.

Lemma pool_dirty_free_list :
  ∀ g, g ∈ free_list_ pool_dirty →
       0 <= g < Z.of_nat (length (pages_ pool_dirty)).
Proof.
  intros g Hin. simpl in *.
  repeat (apply elem_of_cons in Hin as [->|Hin]; [lia|]).
  by apply not_elem_of_nil in Hin.
Qed.

Lemma flush_delete_fetch_roundtrip_witness :
  resident pool_dirty 5 0 ∧
  getPageByFrameId 0 pool_dirty = Done (mkPage [x01; x02] 5 0 true) ∧
  ClockReplacer.wf (replacer_ pool_dirty) ∧
  (∀ g, g ∈ free_list_ pool_dirty →
        0 <= g < Z.of_nat (length (pages_ pool_dirty))) ∧
  ∃ bp1 bp2 g bp3,
    FlushPageImpl 5 pool_dirty = Done (false, bp1) ∧
    DeletePageImpl 5 bp1 = Done (false, bp2) ∧
    FetchPageImpl 0 5 bp2 = Done (Some g, bp3) ∧
    getPageByFrameId g bp3 = Done (mkPage [x01; x02] 5 1 false).
Proof.
  split; [reflexivity|]. split; [reflexivity|].
  split; [apply pool_dirty_replacer_wf|].
  split; [apply pool_dirty_free_list|].
  apply (flush_delete_fetch_roundtrip 0 5 0 (mkPage [x01; x02] 5 0 true)
           pool_dirty);
    [reflexivity | reflexivity | reflexivity | reflexivity | reflexivity
    | apply pool_dirty_replacer_wf | apply pool_dirty_free_list].
Defined.

End BufferPoolManagerMore.
